(** * Peer-assisted media transport of the node dashboard

    A shallow embedding of the three pieces of the dashboard that move
    bytes between peers, and the properties the design document states
    about them:

    - [StreamChannel]: [broadcastChunk] and [handleChunkedMedia] of
      [src/services/streaming.ts] (fragmentation into tagged sub-chunks
      and reassembly);
    - [LiveStreaming]: [handleWebRTCSignal] of the live-streaming page
      (offer / answer / ICE negotiation over the gossip channel);
    - [VideoStreaming], [VideoFileBroadcaster], [VideoFileViewer]: the
      classes of [src/services/video-streaming.ts] (chunked file
      exchange).

    JavaScript numbers that hold sequence tags, indices and sizes are
    integers in the code and are modelled by [Z]; byte arrays are
    [list byte]; [Map] and [Set] objects are [gmap] and [gset].  A
    handler is a function from the state of its object to the new state
    and to what it sends or calls; inbound events are handled one at a
    time, each handler running to completion. *)

From Stdlib Require Import ZArith List Permutation QArith Qcanon.
From Stdlib.Strings Require Import Byte.
From stdpp Require Import gmap strings list fin_maps numbers.

Local Open Scope Z_scope.

(** ** Proof automation *)


(** Boolean comparisons written with [>=?] and [>?]. *)
Ltac zbool_side :=
  first [ apply Z.leb_le; lia | apply Z.leb_gt; lia
        | apply Z.ltb_lt; lia | apply Z.ltb_ge; lia ].
Ltac zbool :=
  rewrite ?Z.geb_leb, ?Z.gtb_ltb; first [ zbool_side | symmetry; zbool_side ].

(** ** JavaScript primitives *)

Abbreviation bytes := (list byte).

(** [Math.ceil(a / b)] for a non-negative [a] and a positive [b]. *)
Definition ceil_div (a b : Z) : Z :=
  if Z.rem a b =? 0 then a / b else a / b + 1.

(** [data.slice(start, end)] for indices inside the array. *)
Definition slice (data : bytes) (start end_ : Z) : bytes :=
  take (Z.to_nat (end_ - start)) (drop (Z.to_nat start) data).

(** [value || fallback] on numbers: [0] and [undefined] are falsy. *)
Definition num_or (v : option Z) (d : Z) : Z :=
  match v with
  | Some x => if x =? 0 then d else x
  | None => d
  end.

(** [value || fallback] on strings: [""] and [undefined] are falsy. *)
Definition str_or (v : option string) (d : string) : string :=
  match v with
  | Some s => if String.eqb s "" then d else s
  | None => d
  end.

(** [mimeType.includes(sub)] *)
Definition includes (s sub : string) : bool :=
  match String.index 0 sub s with Some _ => true | None => false end.

(** ** Fragmenter / reassembler (src/services/streaming.ts) *)

Module StreamChannel.

(** [const MAX_CHUNK_SIZE = 55 * 1024] *)
Definition MAX_CHUNK_SIZE : Z := 55 * 1024.

(** The fields of [StreamEvent] read by the reassembler.  An absent
    field is [undefined] in the source.  [data] is the [number[]] the
    transport produces from the bytes that were sent, so
    [new Uint8Array(event.data)] copies it unchanged. *)
Record StreamEvent := mkEvent {
  ev_data : option bytes;
  ev_sequence : option Z;
  ev_from : option string;
  ev_timestamp : option Z
}.

(** One entry of [pendingChunks]. *)
Record Pending := mkPending {
  chunks : gmap Z bytes;
  totalParts : Z;
  from : string;
  timestamp : Z
}.

(** *** Tag arithmetic *)

(** [Math.floor(sequence / 10000)] *)
Definition frameNumber_of (sequence : Z) : Z := sequence / 10000.
(** [sequence % 10000]; the remainder of JavaScript takes the sign of
    the dividend, as [Z.rem] does. *)
Definition partInfo_of (sequence : Z) : Z := Z.rem sequence 10000.
(** [partInfo % 100] *)
Definition partNumber_of (sequence : Z) : Z := Z.rem (partInfo_of sequence) 100.
(** [Math.floor(partInfo / 100)] *)
Definition totalParts_of (sequence : Z) : Z := partInfo_of sequence / 100.


(** [sequence * 10000], the tag of a frame sent as one chunk. *)
Definition single_tag (sequence : Z) : Z := sequence * 10000.
(** [sequence * 10000 + i + (totalParts * 100)], the tag of part [i]. *)
Definition part_tag (sequence i nparts : Z) : Z :=
  sequence * 10000 + i + nparts * 100.

(** *** Send path *)

(** Part [i] of a split payload, as computed in the loop body. *)
Definition subchunk (data : bytes) (i : Z) : bytes :=
  let start := i * MAX_CHUNK_SIZE in
  let end_ := Z.min (start + MAX_CHUNK_SIZE) (Z.of_nat (length data)) in
  slice data start end_.

(** [broadcastChunk(data, sequence)]: the calls
    [channel.sender.broadcast_chunk(chunk, seq)] it makes, in order.
    The transport is taken to accept every send; the source has no other
    exit from the function. *)
Definition broadcastChunk (data : bytes) (sequence : Z) : list (bytes * Z) :=
  let len := Z.of_nat (length data) in
  if len <=? MAX_CHUNK_SIZE then
    [(data, single_tag sequence)]
  else
    let nparts := ceil_div len MAX_CHUNK_SIZE in
    (fun i => (subchunk data i, part_tag sequence i nparts)) <$> seqZ 0 nparts.

(** *** Receive path *)

(** The loop [for (let i = 0; i < pending.totalParts; i++)] that gathers
    the parts in index order; [None] when a part is missing. *)
Fixpoint collect_parts (cs : gmap Z bytes) (i : Z) (n : nat)
  : option (list bytes) :=
  match n with
  | O => Some []
  | S n' =>
      match cs !! i with
      | Some c => cons c <$> collect_parts cs (i + 1) n'
      | None => None
      end
  end.

(** The cleanup loop run after a frame was reassembled: entries older
    than 5 seconds are deleted. *)
Definition sweep (now : Z) (pend : gmap Z Pending) : gmap Z Pending :=
  filter (fun kv => ¬ (now - timestamp kv.2 > 5000)) pend.

(** [handleChunkedMedia(event)]; [now] is what [Date.now()] returns
    during the call, [pend] is [this.pendingChunks].  The result is the
    returned buffer ([None] for [null]) and the new table. *)
Definition handleChunkedMedia (now : Z) (pend : gmap Z Pending)
    (event : StreamEvent) : option bytes * gmap Z Pending :=
  match ev_data event, ev_sequence event with
  | Some data, Some sequence =>
      let frameNumber := frameNumber_of sequence in
      let partNumber := partNumber_of sequence in
      let nparts := totalParts_of sequence in
      if (nparts <=? 1) && (partNumber =? 0) then
        (Some data, pend)
      else
        let fresh :=
          {| chunks := ∅;
             totalParts := num_or (Some nparts) 1;
             from := default "" (ev_from event);
             timestamp := num_or (ev_timestamp event) now |} in
        let pending0 := default fresh (pend !! frameNumber) in
        let pending :=
          {| chunks := <[partNumber := data]> (chunks pending0);
             totalParts := if 0 <? nparts then nparts else totalParts pending0;
             from := from pending0;
             timestamp := timestamp pending0 |} in
        if Z.of_nat (size (chunks pending)) >=? totalParts pending then
          match collect_parts (chunks pending) 0 (Z.to_nat (totalParts pending)) with
          | Some parts =>
              (Some (concat parts), sweep now (delete frameNumber pend))
          | None => (None, delete frameNumber pend)
          end
        else
          (None, <[frameNumber := pending]> pend)
  | _, _ => (None, pend)
  end.







(** Sample payloads: one byte more than one sub-chunk, and one byte more
    than 99 sub-chunks. *)
Definition two_part_payload : bytes := replicate (Z.to_nat 56321) "000"%byte.
Definition hundred_part_payload : bytes := replicate (Z.to_nat 5575681) "000"%byte.

(** *** The rest of the channel wrapper *)

(** [isWebRTCSignalSequence(sequence)]: the tags reserved for signals. *)
Definition isWebRTCSignalSequence (sequence : Z) : bool :=
  (sequence <? 0) && (sequence >=? -10).

(** [StreamEvent.type] *)
Inductive EventType :=
  | NeighborUp | NeighborDown | Presence | MediaChunk | Signal | Lagged.



(** A registered callback, known by its identity. *)
Abbreviation Callback := nat.

(** The object: [eventListeners] and [pendingChunks]. *)
Record Channel := mkChannel {
  eventListeners : gmap string (list Callback);
  pendingChunks : gmap Z Pending
}.

(** [this.eventListeners.get(eventType) || []] *)
Definition listeners_of (ch : Channel) (eventType : string) : list Callback :=
  default [] (eventListeners ch !! eventType).

(** [on(eventType, callback)] *)
Definition on (ch : Channel) (eventType : string) (callback : Callback) : Channel :=
  mkChannel (<[eventType := listeners_of ch eventType ++ [callback]]> (eventListeners ch))
            (pendingChunks ch).

(** [listeners.indexOf(callback)] followed by [listeners.splice(idx, 1)]:
    the first occurrence is taken out. *)
Fixpoint remove_first (callback : Callback) (listeners : list Callback) : list Callback :=
  match listeners with
  | [] => []
  | cb :: rest =>
      if Nat.eqb cb callback then rest else cb :: remove_first callback rest
  end.

(** [off(eventType, callback)] *)
Definition off (ch : Channel) (eventType : string) (callback : Callback) : Channel :=
  match eventListeners ch !! eventType with
  | Some listeners =>
      mkChannel (<[eventType := remove_first callback listeners]> (eventListeners ch))
                (pendingChunks ch)
  | None => ch
  end.






(** The frame an event belongs to, when it has a tag. *)
Definition frame_of (ev : StreamEvent) : option Z :=
  frameNumber_of <$> ev_sequence ev.

(** The three steps of [handleChunkedMedia] on a part of a multi-part
    frame, named: the entry created for an unknown frame, the entry after
    the part is stored, and the test for completeness. *)
Definition fresh_pending (now : Z) (event : StreamEvent) (nparts : Z) : Pending :=
  {| chunks := ∅;
     totalParts := num_or (Some nparts) 1;
     from := default "" (ev_from event);
     timestamp := num_or (ev_timestamp event) now |}.

Definition store_part (pending0 : Pending) (partNumber : Z) (data : bytes) (nparts : Z)
  : Pending :=
  {| chunks := <[partNumber := data]> (chunks pending0);
     totalParts := if 0 <? nparts then nparts else totalParts pending0;
     from := from pending0;
     timestamp := timestamp pending0 |}.

Definition is_complete (pending : Pending) : bool :=
  Z.of_nat (size (chunks pending)) >=? totalParts pending.

End StreamChannel.

(** ** WebRTC signalling of the live-streaming page *)

Module LiveStreaming.

Inductive SignalType :=
  | WebrtcOffer | WebrtcAnswer | WebrtcIceCandidate | WebrtcRequestOffer.

(** [RTCIceCandidateInit], the candidate descriptor carried by a signal. *)
Record RTCIceCandidateInit := mkCandidate {
  candidate : string;
  sdpMid : option string;
  sdpMLineIndex : option Z
}.

(** [interface WebRTCSignal] *)
Record WebRTCSignal := mkSignal {
  sig_type : SignalType;
  sig_from : string;
  sig_to : option string;
  sig_sdp : option string;
  sig_candidate : option RTCIceCandidateInit
}.

(** [MediaStreamTrack.readyState] *)
Inductive ReadyState := Live | Ended.

Record Track := mkTrack { kind : string; readyState : ReadyState }.

Inductive SdpType := SdpOffer | SdpAnswer.

Record SessionDescription := mkDesc {
  sd_type : SdpType;
  sd_sdp : option string
}.

(** What the page observes of an [RTCPeerConnection]: the tracks added
    at creation, the two descriptions, and the candidates handed to
    [addIceCandidate], oldest first. *)
Record PeerConnection := mkPc {
  pc_tracks : list Track;
  localDescription : option SessionDescription;
  remoteDescription : option SessionDescription;
  iceCandidates : list RTCIceCandidateInit
}.

(** The refs of the component.  [streamChannel] is [None] while
    [streamChannelRef.current] is null, and otherwise holds the signals
    passed to [channel.broadcastSignal], oldest first. *)
Record Page := mkPage {
  myEndpointId : string;
  streamChannel : option (list WebRTCSignal);
  mediaStream : option (list Track);
  peerConnections : gmap string PeerConnection;
  pendingIceCandidates : gmap string (list RTCIceCandidateInit)
}.

Definition is_live (t : Track) : bool :=
  match readyState t with Live => true | Ended => false end.

(** [signal.to && signal.to !== myEndpointIdRef.current]; the empty
    string is falsy. *)
Definition targeted_elsewhere (me : string) (to : option string) : bool :=
  match to with
  | Some t => negb (String.eqb t "") && negb (String.eqb t me)
  | None => false
  end.

(** [createBroadcasterPeerConnection(stream, ...)] adds every track of
    the stream; [createViewerPeerConnection(...)] adds none. *)
Definition createBroadcasterPeerConnection (stream : list Track) : PeerConnection :=
  mkPc stream None None [].
Definition createViewerPeerConnection : PeerConnection :=
  mkPc [] None None [].

Definition setLocalDescription (d : SessionDescription) (pc : PeerConnection) :=
  mkPc (pc_tracks pc) (Some d) (remoteDescription pc) (iceCandidates pc).
Definition setRemoteDescription (d : SessionDescription) (pc : PeerConnection) :=
  mkPc (pc_tracks pc) (localDescription pc) (Some d) (iceCandidates pc).
Definition addIceCandidate (c : RTCIceCandidateInit) (pc : PeerConnection) :=
  mkPc (pc_tracks pc) (localDescription pc) (remoteDescription pc)
       (iceCandidates pc ++ [c]).

(** [for (const candidate of pending) await pc.addIceCandidate(candidate)] *)
Definition addAll (cs : list RTCIceCandidateInit) (pc : PeerConnection) :=
  fold_left (fun p c => addIceCandidate c p) cs pc.

Section Handler.

(** The session descriptions the browser's negotiation engine produces
    for a connection ([pc.createOffer()], [pc.createAnswer()]). *)
Variable createOffer : PeerConnection -> option string.
Variable createAnswer : PeerConnection -> option string.

(** [handleWebRTCSignal(signal)], run to completion with every call into
    the negotiation engine resolving. *)
Definition handleWebRTCSignal (st : Page) (signal : WebRTCSignal) : Page :=
  if String.eqb (sig_from signal) (myEndpointId st) then st
  else if targeted_elsewhere (myEndpointId st) (sig_to signal) then st
  else
    match streamChannel st with
    | None => st
    | Some sent =>
        let peer := sig_from signal in
        match sig_type signal with
        | WebrtcRequestOffer =>
            match mediaStream st with
            | None => st
            | Some stream =>
                let activeTracks := List.filter is_live stream in
                if (length activeTracks =? 0)%nat then st
                else
                  let pc := createBroadcasterPeerConnection stream in
                  let offer := createOffer pc in
                  let pc' := setLocalDescription (mkDesc SdpOffer offer) pc in
                  let offerSignal :=
                    mkSignal WebrtcOffer (myEndpointId st) (Some peer) offer None in
                  mkPage (myEndpointId st) (Some (sent ++ [offerSignal]))
                         (mediaStream st)
                         (<[peer := pc']> (peerConnections st))
                         (pendingIceCandidates st)
            end
        | WebrtcOffer =>
            let pc := createViewerPeerConnection in
            let pc1 := setRemoteDescription (mkDesc SdpOffer (sig_sdp signal)) pc in
            let pending := default [] (pendingIceCandidates st !! peer) in
            let pc2 := addAll pending pc1 in
            let answer := createAnswer pc2 in
            let pc3 := setLocalDescription (mkDesc SdpAnswer answer) pc2 in
            let answerSignal :=
              mkSignal WebrtcAnswer (myEndpointId st) (Some peer) answer None in
            mkPage (myEndpointId st) (Some (sent ++ [answerSignal]))
                   (mediaStream st)
                   (<[peer := pc3]> (peerConnections st))
                   (delete peer (pendingIceCandidates st))
        | WebrtcAnswer =>
            match peerConnections st !! peer with
            | Some pc =>
                let pc1 := setRemoteDescription (mkDesc SdpAnswer (sig_sdp signal)) pc in
                let pending := default [] (pendingIceCandidates st !! peer) in
                let pc2 := addAll pending pc1 in
                mkPage (myEndpointId st) (streamChannel st) (mediaStream st)
                       (<[peer := pc2]> (peerConnections st))
                       (delete peer (pendingIceCandidates st))
            | None => st
            end
        | WebrtcIceCandidate =>
            match sig_candidate signal with
            | None => st
            | Some c =>
                match peerConnections st !! peer with
                | Some pc =>
                    match remoteDescription pc with
                    | Some _ =>
                        mkPage (myEndpointId st) (streamChannel st) (mediaStream st)
                               (<[peer := addIceCandidate c pc]> (peerConnections st))
                               (pendingIceCandidates st)
                    | None =>
                        mkPage (myEndpointId st) (streamChannel st) (mediaStream st)
                               (peerConnections st)
                               (<[peer := default [] (pendingIceCandidates st !! peer) ++ [c]]>
                                  (pendingIceCandidates st))
                    end
                | None =>
                    mkPage (myEndpointId st) (streamChannel st) (mediaStream st)
                           (peerConnections st)
                           (<[peer := default [] (pendingIceCandidates st !! peer) ++ [c]]>
                              (pendingIceCandidates st))
                end
            end
        end
    end.

(** Signals handled one after the other. *)
Definition handleAll (st : Page) (signals : list WebRTCSignal) : Page :=
  fold_left handleWebRTCSignal signals st.

End Handler.

(** An ICE-candidate signal from [peer] carrying [c], not addressed. *)
Definition iceSignal (peer : string) (c : RTCIceCandidateInit) : WebRTCSignal :=
  mkSignal WebrtcIceCandidate peer None None (Some c).

(** The signals passed to the channel so far. *)
Definition sent_signals (st : Page) : list WebRTCSignal :=
  default [] (streamChannel st).

(** The tracks of the local media source that are in the live state. *)
Definition live_tracks (st : Page) : list Track :=
  match mediaStream st with
  | Some stream => List.filter is_live stream
  | None => []
  end.

(** [peer] has a connection handle whose remote description is set. *)
Definition ready (st : Page) (peer : string) : Prop :=
  exists pc, peerConnections st !! peer = Some pc /\ is_Some (remoteDescription pc).

(** The pending-candidate queue of [peer], oldest first. *)
Definition queue_of (st : Page) (peer : string) : list RTCIceCandidateInit :=
  default [] (pendingIceCandidates st !! peer).

(** The candidates applied to the handle of [peer], oldest first. *)
Definition applied_of (st : Page) (peer : string) : list RTCIceCandidateInit :=
  default [] (iceCandidates <$> peerConnections st !! peer).

(** A signal from [peer] that passes the checks at the top of the
    handler: not from ourselves, not addressed to someone else, and a
    channel is open. *)
Definition passes (st : Page) (peer : string) (signal : WebRTCSignal) : Prop :=
  sig_from signal = peer
  /\ peer <> myEndpointId st
  /\ targeted_elsewhere (myEndpointId st) (sig_to signal) = false
  /\ is_Some (streamChannel st).

(** A signal that applies the remote description of [peer]: an offer, or
    an answer when a handle for [peer] exists. *)
Definition applies_remote (st : Page) (peer : string) (signal : WebRTCSignal) : Prop :=
  sig_type signal = WebrtcOffer
  \/ (sig_type signal = WebrtcAnswer /\ is_Some (peerConnections st !! peer)).

(** Sample states for the negotiation. *)
Definition viewer_page : Page := mkPage "viewer" (Some []) None ∅ ∅.
Definition camera_off_page : Page :=
  mkPage "broadcaster" (Some []) (Some [mkTrack "video" Ended]) ∅ ∅.
Definition sample_candidate (n : Z) : RTCIceCandidateInit :=
  mkCandidate "candidate:1 1 UDP 2122252543 10.0.0.1 50000 typ host" (Some "0") (Some n).
Definition sample_offer (pc : PeerConnection) : option string := Some "v=0 offer".
Definition sample_answer (pc : PeerConnection) : option string := Some "v=0 answer".

(** *** The rest of the page: stream events and the retry interval *)

(** [interface Neighbor] *)
Record Neighbor := mkNeighbor {
  n_id : string;
  n_name : option string;
  lastSeen : Z
}.

(** What [handleStreamEvent] reads of a [StreamEvent].  [pe_signal] is
    [decodeWebRTCSignal(event.data)]: [None] when the event has no data
    or the data is not a signal. *)
Record PageEvent := mkPageEvent {
  pe_type : StreamChannel.EventType;
  pe_endpointId : option string;
  pe_from : option string;
  pe_name : option string;
  pe_signal : option WebRTCSignal
}.

(** The refs of the component together with its [neighbors] and
    [chunkCount] states. *)
Record View := mkView {
  refs : Page;
  neighbors : list Neighbor;
  chunkCount : Z
}.

(** A string that passes [if (s)]: present and not empty. *)
Definition truthy (s : option string) : option string :=
  match s with
  | Some s' => if String.eqb s' "" then None else Some s'
  | None => None
  end.

Definition set_refs (v : View) (st : Page) : View :=
  mkView st (neighbors v) (chunkCount v).

Definition set_neighbors (v : View) (ns : list Neighbor) : View :=
  mkView (refs v) ns (chunkCount v).

(** The retry interval of [handleJoinStream]: its counter, and whether
    [clearInterval] was called on it. *)
Record Retry := mkRetry {
  retryCount : Z;
  cleared : bool
}.

Definition maxRetries : Z := 10.

(** The signal the retry interval broadcasts. *)
Definition requestSignal (me : string) : WebRTCSignal :=
  mkSignal WebrtcRequestOffer me None None None.

(** One firing of the retry interval; a cleared interval does not fire. *)
Definition retryTick (st : Page) (r : Retry) : Page * Retry :=
  if cleared r then (st, r)
  else
    let count := retryCount r + 1 in
    if (0 <? size (peerConnections st))%nat then (st, mkRetry count true)
    else if count >? maxRetries then (st, mkRetry count true)
    else
      match streamChannel st with
      | Some sent =>
          (mkPage (myEndpointId st) (Some (sent ++ [requestSignal (myEndpointId st)]))
                  (mediaStream st) (peerConnections st) (pendingIceCandidates st),
           mkRetry count false)
      | None => (st, mkRetry count false)
      end.

(** What happens to a watching page: a stream event arrives at the time
    [now], or the retry interval fires. *)
Inductive Happening :=
  | Arrives (now : Z) (event : PageEvent)
  | RetryFires.

Section PageEvents.

Variable createOffer : PeerConnection -> option string.
Variable createAnswer : PeerConnection -> option string.

(** [forwardSignal(rawData)]: [None] is its [false]. *)
Definition forwardSignal (v : View) (decoded : option WebRTCSignal) : option View :=
  match decoded with
  | Some signal =>
      Some (set_refs v (handleWebRTCSignal createOffer createAnswer (refs v) signal))
  | None => None
  end.

(** [handleStreamEvent(event)], with [now] the value of [Date.now()]. *)
Definition handleStreamEvent (now : Z) (v : View) (event : PageEvent) : View :=
  match pe_type event with
  | StreamChannel.NeighborUp =>
      match truthy (pe_endpointId event) with
      | Some id =>
          if existsb (fun n => String.eqb (n_id n) id) (neighbors v) then v
          else set_neighbors v (neighbors v ++ [mkNeighbor id None now])
      | None => v
      end
  | StreamChannel.NeighborDown =>
      match truthy (pe_endpointId event) with
      | Some id =>
          let st := refs v in
          mkView (mkPage (myEndpointId st) (streamChannel st) (mediaStream st)
                         (delete id (peerConnections st)) (pendingIceCandidates st))
                 (List.filter (fun n => negb (String.eqb (n_id n) id)) (neighbors v))
                 (chunkCount v)
      | None => v
      end
  | StreamChannel.Presence =>
      match truthy (pe_from event), truthy (pe_name event) with
      | Some sender, Some name =>
          set_neighbors v
            (List.map (fun n => if String.eqb (n_id n) sender
                                then mkNeighbor (n_id n) (Some name) now else n)
                      (neighbors v))
      | _, _ => v
      end
  | StreamChannel.MediaChunk =>
      match forwardSignal v (pe_signal event) with
      | Some v' => v'
      | None => mkView (refs v) (neighbors v) (chunkCount v + 1)
      end
  | StreamChannel.Signal =>
      match forwardSignal v (pe_signal event) with
      | Some v' => v'
      | None => v
      end
  | StreamChannel.Lagged => v
  end.

Definition happen (w : View * Retry) (h : Happening) : View * Retry :=
  match h with
  | Arrives now event => (handleStreamEvent now w.1 event, w.2)
  | RetryFires =>
      let '(st, r) := retryTick (refs w.1) w.2 in (set_refs w.1 st, r)
  end.

Definition happenAll (w : View * Retry) (hs : list Happening) : View * Retry :=
  fold_left happen hs w.

End PageEvents.

(** The requests for an offer among the signals the page has sent. *)
Definition is_request (s : WebRTCSignal) : bool :=
  match sig_type s with WebrtcRequestOffer => true | _ => false end.

Definition offer_requests (st : Page) : list WebRTCSignal :=
  List.filter is_request (sent_signals st).

(** The ids of the neighbours shown. *)
Definition neighbor_ids (v : View) : list string := n_id <$> neighbors v.

(** [reply] answers [signal]: an offer for a request, an answer for an
    offer, addressed to the sender. *)
Definition replies_to (reply signal : WebRTCSignal) : Prop :=
  sig_to reply = Some (sig_from signal)
  /\ ((sig_type signal = WebrtcRequestOffer /\ sig_type reply = WebrtcOffer)
      \/ (sig_type signal = WebrtcOffer /\ sig_type reply = WebrtcAnswer)).

(** The retry interval keeps its promise for a page whose identity is
    [me]: every request sent is the interval's own, there are at most
    [maxRetries] of them, and while the interval is running there are no
    more than it has counted. *)
Definition within_retries (me : string) (w : View * Retry) : Prop :=
  myEndpointId (refs w.1) = me
  /\ Forall (fun s => s = requestSignal me) (offer_requests (refs w.1))
  /\ Z.of_nat (length (offer_requests (refs w.1))) <= maxRetries
  /\ (cleared w.2 = false ->
      Z.of_nat (length (offer_requests (refs w.1))) <= retryCount w.2 <= maxRetries).

End LiveStreaming.

(** ** File-chunk exchange (src/services/video-streaming.ts) *)

(** *** Messages, metadata and effects *)

Module VideoStreaming.

(** [const VIDEO_CHUNK_SIZE = 64 * 1024] *)
Definition VIDEO_CHUNK_SIZE : Z := 64 * 1024.

Inductive MessageType :=
  | VideoMetadataMsg | VideoChunk | VideoRequestChunk
  | VideoHaveChunks | VideoRequestMetadata.

(** [interface VideoStreamMessage] *)
Record VideoStreamMessage := mkMsg {
  msg_type : MessageType;
  msg_from : string;
  msg_fileSize : option Z;
  msg_fileName : option string;
  msg_mimeType : option string;
  msg_totalChunks : option Z;
  msg_duration : option Z;
  msg_chunkIndex : option Z;
  msg_chunkData : option bytes;
  msg_availableChunks : option (list Z)
}.

(** [interface VideoMetadata] *)
Record VideoMetadata := mkMeta {
  fileName : string;
  fileSize : Z;
  mimeType : string;
  totalChunks : Z;
  duration : option Z
}.

(** What a handler does besides updating its object: sends on the
    channel ([channel.broadcastSignal(m)],
    [channel.broadcastChunk(encodeVideoMessage(m), sequence)]), calls of
    the registered callbacks, timers, and handing a blob to the video
    element. *)
Inductive Effect :=
  | BroadcastSignal (m : VideoStreamMessage)
  | BroadcastChunk (m : VideoStreamMessage) (sequence : Z)
  | OnPeerRequest (peerId : string) (chunkIndex : Z)
  | OnProgress (done_ total : Z)
  | OnMetadata (md : VideoMetadata)
  | OnReady
  | SetTimeout (ms : Z)
  | LoadBlob (parts : list bytes).

(** A browser [File]: name, type and content; [file.size] is the length
    of the content. *)
Record File := mkFile { file_name : string; file_type : string; file_data : bytes }.

Definition file_size (f : File) : Z := Z.of_nat (length (file_data f)).

(** The [video-chunk] message built by both classes. *)
Definition chunkMessage (me : string) (index : Z) (chunk : bytes) : VideoStreamMessage :=
  mkMsg VideoChunk me None None None None None (Some index) (Some chunk) None.

(** The [video-metadata] message. *)
Definition metadataMessage (me : string) (md : VideoMetadata) : VideoStreamMessage :=
  mkMsg VideoMetadataMsg me (Some (fileSize md)) (Some (fileName md))
        (Some (mimeType md)) (Some (totalChunks md)) (duration md) None None None.

(** The messages some effects put on the channel, in order. *)
Definition delivered (effects : list Effect) : list VideoStreamMessage :=
  omap (fun e => match e with
                 | BroadcastSignal m => Some m
                 | BroadcastChunk m _ => Some m
                 | _ => None
                 end) effects.

End VideoStreaming.

(** *** [class VideoFileBroadcaster] *)

Module VideoFileBroadcaster.

Import VideoStreaming.

(** The fields of the object; [onProgress] and [onPeerRequest] tell
    whether a callback is registered. *)
Record Broadcaster := mkBroadcaster {
  file : File;
  chunks : list bytes;
  metadata : VideoMetadata;
  myEndpointId : string;
  isStreaming : bool;
  currentChunkIndex : Z;
  onProgress : bool;
  onPeerRequest : bool
}.

(** [constructor(channel, file, myEndpointId)] *)
Definition constructor (file : File) (myEndpointId : string) : Broadcaster :=
  mkBroadcaster file []
    (mkMeta (file_name file) (file_size file)
            (str_or (Some (file_type file)) "video/mp4")
            (ceil_div (file_size file) VIDEO_CHUNK_SIZE) None)
    myEndpointId false 0 false false.

(** [setOnPeerRequest(callback)] *)
Definition setOnPeerRequest (b : Broadcaster) : Broadcaster :=
  mkBroadcaster (file b) (chunks b) (metadata b) (myEndpointId b)
    (isStreaming b) (currentChunkIndex b) (onProgress b) true.

(** The loop [for (let i = 0; i < data.length; i += VIDEO_CHUNK_SIZE)];
    [fuel] bounds the number of iterations. *)
Fixpoint split_chunks (fuel : nat) (data : bytes) (i : Z) : list bytes :=
  match fuel with
  | O => []
  | S fuel' =>
      let len := Z.of_nat (length data) in
      if i <? len then
        slice data i (Z.min (i + VIDEO_CHUNK_SIZE) len)
          :: split_chunks fuel' data (i + VIDEO_CHUNK_SIZE)
      else []
  end.

(** [prepare()] *)
Definition prepare (b : Broadcaster) : Broadcaster :=
  let data := file_data (file b) in
  let cs := split_chunks (length data) data 0 in
  let md := metadata b in
  mkBroadcaster (file b) cs
    (mkMeta (fileName md) (fileSize md) (mimeType md) (Z.of_nat (length cs)) (duration md))
    (myEndpointId b) (isStreaming b) (currentChunkIndex b)
    (onProgress b) (onPeerRequest b).

(** [private broadcastChunk(index)]; inside the bounds the array read
    always finds the chunk. *)
Definition broadcastChunk (b : Broadcaster) (index : Z) : list Effect :=
  if (index <? 0) || (index >=? Z.of_nat (length (chunks b))) then []
  else
    match chunks b !! Z.to_nat index with
    | Some chunk => [BroadcastChunk (chunkMessage (myEndpointId b) index chunk) index]
    | None => []
    end.

(** [private broadcastMetadata()] *)
Definition broadcastMetadata (b : Broadcaster) : list Effect :=
  [BroadcastSignal (metadataMessage (myEndpointId b) (metadata b))].

(** [handleChunkRequest(peerId, chunkIndex)]; the broadcaster object is
    not modified. *)
Definition handleChunkRequest (b : Broadcaster) (peerId : string) (chunkIndex : Z)
  : list Effect :=
  (if onPeerRequest b then [OnPeerRequest peerId chunkIndex] else [])
  ++ (if (chunkIndex >=? 0) && (chunkIndex <? Z.of_nat (length (chunks b)))
      then broadcastChunk b chunkIndex else []).

(** [private handleVideoMessage(message)] *)
Definition handleVideoMessage (b : Broadcaster) (message : VideoStreamMessage)
  : Broadcaster * list Effect :=
  if String.eqb (msg_from message) (myEndpointId b) then (b, [])
  else
    match msg_type message with
    | VideoRequestMetadata => (b, broadcastMetadata b)
    | VideoRequestChunk =>
        match msg_chunkIndex message with
        | Some index => (b, handleChunkRequest b (msg_from message) index)
        | None => (b, [])
        end
    | _ => (b, [])
    end.

(** [setOnProgress(callback)] *)
Definition setOnProgress (b : Broadcaster) : Broadcaster :=
  mkBroadcaster (file b) (chunks b) (metadata b) (myEndpointId b)
    (isStreaming b) (currentChunkIndex b) true (onPeerRequest b).

(** [stopBroadcast()] *)
Definition stopBroadcast (b : Broadcaster) : Broadcaster :=
  mkBroadcaster (file b) (chunks b) (metadata b) (myEndpointId b)
    false (currentChunkIndex b) (onProgress b) (onPeerRequest b).

(** [hasChunk(index)] *)
Definition hasChunk (b : Broadcaster) (index : Z) : bool :=
  (index >=? 0) && (index <? Z.of_nat (length (chunks b))).

(** The closure [broadcastNext] of [startBroadcast]: what runs each time
    its timer fires.  [SetTimeout chunkIntervalMs] is the timer it sets
    for its next run. *)
Definition broadcastNext (chunkIntervalMs : Z) (b : Broadcaster)
  : Broadcaster * list Effect :=
  if negb (isStreaming b) then (b, [])
  else if currentChunkIndex b <? Z.of_nat (length (chunks b)) then
    let sent := broadcastChunk b (currentChunkIndex b) in
    let b' :=
      mkBroadcaster (file b) (chunks b) (metadata b) (myEndpointId b)
        (isStreaming b) (currentChunkIndex b + 1) (onProgress b) (onPeerRequest b) in
    (b', sent
         ++ (if onProgress b
             then [OnProgress (currentChunkIndex b') (Z.of_nat (length (chunks b)))]
             else [])
         ++ [SetTimeout chunkIntervalMs])
  else (b, []).

(** [startBroadcast(chunkIntervalMs)] up to its first call of
    [broadcastNext], included. *)
Definition startBroadcast (chunkIntervalMs : Z) (b : Broadcaster)
  : Broadcaster * list Effect :=
  if isStreaming b then (b, [])
  else
    let b1 := if (length (chunks b) =? 0)%nat then prepare b else b in
    let b2 :=
      mkBroadcaster (file b1) (chunks b1) (metadata b1) (myEndpointId b1)
        true 0 (onProgress b1) (onPeerRequest b1) in
    let '(b3, sent) := broadcastNext chunkIntervalMs b2 in
    (b3, broadcastMetadata b2 ++ sent).

(** The timer of [broadcastNext] firing [n] times in a row. *)
Fixpoint ticks (n : nat) (chunkIntervalMs : Z) (b : Broadcaster)
  : Broadcaster * list Effect :=
  match n with
  | O => (b, [])
  | S n' =>
      let '(b', sent) := broadcastNext chunkIntervalMs b in
      let '(b'', sent') := ticks n' chunkIntervalMs b' in
      (b'', sent ++ sent')
  end.

(** The chunk sends among some effects: frame number and message. *)
Definition chunk_sends (effects : list Effect) : list (Z * VideoStreamMessage) :=
  omap (fun e => match e with
                 | BroadcastChunk m sequence => Some (sequence, m)
                 | _ => None
                 end) effects.

(** The send of chunk number [i], as the broadcaster makes it. *)
Definition chunk_send (b : Broadcaster) (i : nat) (chunk : bytes)
  : Z * VideoStreamMessage :=
  (Z.of_nat i, chunkMessage (myEndpointId b) (Z.of_nat i) chunk).

(** A sample object: a three-byte file made ready by a broadcaster whose
    request observer is registered. *)
Definition sample_file : File :=
  mkFile "clip.webm" "video/webm" ["001"; "002"; "003"]%byte.
Definition sample_broadcaster : Broadcaster :=
  setOnPeerRequest (prepare (constructor sample_file "broadcaster")).

End VideoFileBroadcaster.

(** *** [class VideoFileViewer] *)

Module VideoFileViewer.

Import VideoStreaming.

(** The video element: only whether it has a [src], and which blob. *)
Record VideoElement := mkVideo { src : option (list bytes) }.

(** The fields of the object; [onMetadata], [onProgress] and [onReady]
    tell whether a callback is registered. *)
Record Viewer := mkViewer {
  myEndpointId : string;
  metadata : option VideoMetadata;
  chunks : gmap Z bytes;
  receivedChunks : gset Z;
  pendingRequests : gset Z;
  videoElement : option VideoElement;
  lastAppendedIndex : Z;
  onMetadata : bool;
  onProgress : bool;
  onReady : bool;
  peerChunks : gmap string (gset Z)
}.

(** [constructor(channel, myEndpointId)] *)
Definition constructor (myEndpointId : string) : Viewer :=
  mkViewer myEndpointId None ∅ ∅ ∅ None (-1) false false false ∅.

(** The counting loop of [tryProgressivePlay]: stops at the first gap. *)
Fixpoint count_sequential (cs : gmap Z bytes) (i : Z) (n : nat) : Z :=
  match n with
  | O => 0
  | S n' =>
      match cs !! i with
      | Some _ => 1 + count_sequential cs (i + 1) n'
      | None => 0
      end
  end.

(** The gathering loop of [assembleAndPlay]: stops at the first gap. *)
Fixpoint ordered_chunks (cs : gmap Z bytes) (i : Z) (n : nat) : list bytes :=
  match n with
  | O => []
  | S n' =>
      match cs !! i with
      | Some c => c :: ordered_chunks cs (i + 1) n'
      | None => []
      end
  end.

(** Assignments to [this.videoElement.src] and [this.lastAppendedIndex]. *)
Definition set_video (v : Viewer) (el : option VideoFileViewer.VideoElement) (last : Z) : Viewer :=
  mkViewer (myEndpointId v) (metadata v) (chunks v) (receivedChunks v)
    (pendingRequests v) el last (onMetadata v) (onProgress v) (onReady v)
    (peerChunks v).

(** [assembleAndPlay(chunkCount)]: the element receives the blob of the
    gathered chunks (seeking and [play()] on it are left to the player). *)
Definition assembleAndPlay (v : Viewer) (chunkCount : Z) : Viewer * list Effect :=
  match metadata v, videoElement v with
  | Some md, Some _ =>
      let count := num_or (Some chunkCount) (totalChunks md) in
      let ordered := ordered_chunks (chunks v) 0 (Z.to_nat count) in
      match ordered with
      | [] => (v, [])
      | _ => (set_video v (Some (mkVideo (Some ordered))) (lastAppendedIndex v),
              [LoadBlob ordered])
      end
  | _, _ => (v, [])
  end.

(** [tryProgressivePlay()].  The percentage test
    [(sequentialCount / totalChunks) * 100 >= 10] is only reached with a
    positive [totalChunks] and is written on integers. *)
Definition tryProgressivePlay (v : Viewer) : Viewer * list Effect :=
  match metadata v, videoElement v with
  | Some md, Some el =>
      let sequentialCount :=
        count_sequential (chunks v) 0 (Z.to_nat (totalChunks md)) in
      let v1 := set_video v (videoElement v) (sequentialCount - 1) in
      let isWebM := includes (mimeType md) "webm" in
      let hasAllChunks := Z.of_nat (size (receivedChunks v)) >=? totalChunks md in
      if hasAllChunks && (sequentialCount >=? totalChunks md) then
        assembleAndPlay v1 sequentialCount
      else if isWebM && (sequentialCount * 100 >=? 10 * totalChunks md)
              && negb (bool_decide (is_Some (src el))) then
        assembleAndPlay v1 sequentialCount
      else (v1, [])
  | _, _ => (v, [])
  end.

(** [announceChunks()] *)
Definition announceChunks (v : Viewer) : list Effect :=
  if negb (Z.rem (Z.of_nat (size (receivedChunks v))) 10 =? 0) then []
  else [BroadcastSignal
          (mkMsg VideoHaveChunks (myEndpointId v) None None None None None None None
                 (Some (elements (receivedChunks v))))].

(** [handleChunk(message)] *)
Definition handleChunk (v : Viewer) (message : VideoStreamMessage)
  : Viewer * list Effect :=
  match msg_chunkIndex message, msg_chunkData message with
  | Some index, Some chunkData =>
      if bool_decide (index ∈ receivedChunks v) then (v, [])
      else
        let v1 :=
          mkViewer (myEndpointId v) (metadata v)
            (<[index := chunkData]> (chunks v))
            ({[index]} ∪ receivedChunks v)
            (pendingRequests v ∖ {[index]})
            (videoElement v) (lastAppendedIndex v)
            (onMetadata v) (onProgress v) (onReady v) (peerChunks v) in
        let '(v2, played) :=
          match metadata v1 with
          | Some md =>
              let '(v', e) := tryProgressivePlay v1 in
              (v', (if onProgress v1
                    then [OnProgress (Z.of_nat (size (receivedChunks v1))) (totalChunks md)]
                    else []) ++ e)
          | None => (v1, [])
          end in
        (v2, played ++ announceChunks v2)
  | _, _ => (v, [])
  end.

(** [handleMetadata(message)] followed by [initMediaSource()], which
    ends in [startRequestingChunks()] setting its first timer. *)
Definition handleMetadata (v : Viewer) (message : VideoStreamMessage)
  : Viewer * list Effect :=
  match metadata v with
  | Some _ => (v, [])
  | None =>
      let md :=
        mkMeta (str_or (msg_fileName message) "video")
               (num_or (msg_fileSize message) 0)
               (str_or (msg_mimeType message) "video/mp4")
               (num_or (msg_totalChunks message) 0)
               (msg_duration message) in
      let v1 :=
        mkViewer (myEndpointId v) (Some md) (chunks v) (receivedChunks v)
          (pendingRequests v) (videoElement v) (lastAppendedIndex v)
          (onMetadata v) (onProgress v) (onReady v) (peerChunks v) in
      (v1,
       (if onMetadata v then [OnMetadata md] else [])
       ++ match videoElement v with
          | Some _ => (if onReady v then [OnReady] else []) ++ [SetTimeout 100]
          | None => []
          end)
  end.

(** [private handleChunkRequest(message)]: relay of a held chunk. *)
Definition handleChunkRequest (v : Viewer) (message : VideoStreamMessage)
  : list Effect :=
  match msg_chunkIndex message with
  | Some index =>
      match chunks v !! index with
      | Some chunk =>
          [BroadcastChunk (chunkMessage (myEndpointId v) index chunk) (index + 100000)]
      | None => []
      end
  | None => []
  end.

(** [handlePeerChunks(message)] *)
Definition handlePeerChunks (v : Viewer) (message : VideoStreamMessage) : Viewer :=
  match msg_availableChunks message with
  | Some available =>
      let peerSet := default ∅ (peerChunks v !! msg_from message) in
      mkViewer (myEndpointId v) (metadata v) (chunks v) (receivedChunks v)
        (pendingRequests v) (videoElement v) (lastAppendedIndex v)
        (onMetadata v) (onProgress v) (onReady v)
        (<[msg_from message := list_to_set available ∪ peerSet]> (peerChunks v))
  | None => v
  end.

(** [private handleVideoMessage(message)] *)
Definition handleVideoMessage (v : Viewer) (message : VideoStreamMessage)
  : Viewer * list Effect :=
  if String.eqb (msg_from message) (myEndpointId v) then (v, [])
  else
    match msg_type message with
    | VideoMetadataMsg => handleMetadata v message
    | VideoChunk => handleChunk v message
    | VideoRequestChunk => (v, handleChunkRequest v message)
    | VideoHaveChunks => (handlePeerChunks v message, [])
    | VideoRequestMetadata => (v, [])
    end.

(** Messages handled one after the other; the effects are dropped. *)
Definition handleAll (v : Viewer) (messages : list VideoStreamMessage) : Viewer :=
  fold_left (fun v m => (handleVideoMessage v m).1) messages v.

Record Progress := mkProgress { received : Z; total : Z; percent : Qc }.

(** [getProgress()]; the quotient is exact on rationals. *)
Definition getProgress (v : Viewer) : Progress :=
  let total := num_or (totalChunks <$> metadata v) 0 in
  let received := Z.of_nat (size (receivedChunks v)) in
  mkProgress received total
    (if total >? 0 then (Qc_of_Z received / Qc_of_Z total * Qc_of_Z 100)%Qc
     else Qc_of_Z 0).

(** Two viewer objects that hold the same chunks, the same received
    set, the same metadata and the same identity. *)
Definition same_store (v v' : Viewer) : Prop :=
  chunks v' = chunks v
  /\ receivedChunks v' = receivedChunks v
  /\ metadata v' = metadata v
  /\ myEndpointId v' = myEndpointId v.

(** [setVideoElement(element)] *)
Definition setVideoElement (v : Viewer) (element : VideoElement) : Viewer :=
  set_video v (Some element) (lastAppendedIndex v).

(** [requestChunkFromPeers(chunkIndex)]: the signal it broadcasts. *)
Definition requestChunkFromPeers (v : Viewer) (chunkIndex : Z) : Effect :=
  BroadcastSignal
    (mkMsg VideoRequestChunk (myEndpointId v) None None None None None
           (Some chunkIndex) None None).

(** [requestMetadata()] *)
Definition requestMetadata (v : Viewer) : list Effect :=
  [BroadcastSignal
     (mkMsg VideoRequestMetadata (myEndpointId v) None None None None None
            None None None)].

(** The loop of [requestBatch]:
    [for (let i = 0; i < totalChunks && requested < 5; i++)], from index
    [i] with [n] indices left below [totalChunks].  It gives the indices
    it asked for, in order, and [pendingRequests] afterwards. *)
Fixpoint request_loop (received pending : gset Z) (i : Z) (n : nat) (requested : nat)
  : list Z * gset Z :=
  match n with
  | O => ([], pending)
  | S n' =>
      if (requested <? 5)%nat then
        if bool_decide (i ∉ received) && bool_decide (i ∉ pending) then
          let '(asked, pending') :=
            request_loop received ({[i]} ∪ pending) (i + 1) n' (S requested) in
          (i :: asked, pending')
        else request_loop received pending (i + 1) n' requested
      else ([], pending)
  end.

Definition set_pending (v : Viewer) (pending : gset Z) : Viewer :=
  mkViewer (myEndpointId v) (metadata v) (chunks v) (receivedChunks v)
    pending (videoElement v) (lastAppendedIndex v)
    (onMetadata v) (onProgress v) (onReady v) (peerChunks v).

(** The closure [requestBatch] of [startRequestingChunks()]: what runs
    each time its timer fires.  [SetTimeout 500] is the timer it sets for
    its next run. *)
Definition requestBatch (v : Viewer) : Viewer * list Effect :=
  match metadata v with
  | None => (v, [])
  | Some md =>
      let '(asked, pending) :=
        request_loop (receivedChunks v) (pendingRequests v) 0
                     (Z.to_nat (totalChunks md)) 0 in
      let sends := requestChunkFromPeers v <$> asked in
      if Z.of_nat (size (receivedChunks v)) >=? totalChunks md then
        (set_pending v pending, sends)
      else
        let pending' :=
          if (0 <? size pending)%nat && (length asked =? 0)%nat then ∅ else pending in
        (set_pending v pending', sends ++ [SetTimeout 500])
  end.

(** [isReadyToPlay()] *)
Definition isReadyToPlay (v : Viewer) : bool := lastAppendedIndex v >=? 0.

(** [destroy()] *)
Definition destroy (v : Viewer) : Viewer :=
  mkViewer (myEndpointId v) (metadata v) ∅ ∅ ∅ (videoElement v)
    (lastAppendedIndex v) (onMetadata v) (onProgress v) (onReady v) ∅.

(** What happens to a viewer: a message is handled, or the timer of
    [requestBatch] fires. *)
Inductive Step := Message (m : VideoStreamMessage) | Timer.

Definition step (v : Viewer) (s : Step) : Viewer * list Effect :=
  match s with
  | Message m => handleVideoMessage v m
  | Timer => requestBatch v
  end.

(** A sequence of steps: the viewer afterwards and everything it did. *)
Fixpoint run (v : Viewer) (steps : list Step) : Viewer * list Effect :=
  match steps with
  | [] => (v, [])
  | s :: rest =>
      let '(v', e) := step v s in
      let '(v'', e') := run v' rest in
      (v'', e ++ e')
  end.

(** The chunk indices asked for among some effects. *)
Definition requests (effects : list Effect) : list Z :=
  omap (fun e => match e with
                 | BroadcastSignal m =>
                     match msg_type m with
                     | VideoRequestChunk => msg_chunkIndex m
                     | _ => None
                     end
                 | _ => None
                 end) effects.

(** The blobs handed to the video element among some effects. *)
Definition blobs (effects : list Effect) : list (list bytes) :=
  omap (fun e => match e with LoadBlob parts => Some parts | _ => None end) effects.

(** The indices below [totalChunks] that are neither received nor asked
    for, in increasing order. *)
Definition wanted (v : Viewer) (n : Z) : list Z :=
  filter (fun i => (i ∉ receivedChunks v) /\ (i ∉ pendingRequests v)) (seqZ 0 n).



(** [v] is assembling the file whose chunks are [cs]: it has metadata
    [md] announcing as many chunks as [cs] has, a video element, and
    every chunk it stores is the chunk of [cs] with that index. *)
Definition from_file (cs : list bytes) (v : Viewer) : Prop :=
  forall i c, chunks v !! i = Some c -> 0 <= i /\ cs !! Z.to_nat i = Some c.

Definition assembling (cs : list bytes) (md : VideoMetadata) (v : Viewer) : Prop :=
  metadata v = Some md
  /\ totalChunks md = Z.of_nat (length cs)
  /\ is_Some (videoElement v)
  /\ dom (chunks v) = receivedChunks v
  /\ from_file cs v.

(** A step whose chunk, if it is a chunk message, is a chunk of [cs]
    under its own index. *)
Definition genuine (cs : list bytes) (s : Step) : Prop :=
  match s with
  | Message m =>
      msg_type m = VideoChunk ->
      forall i c, msg_chunkIndex m = Some i -> msg_chunkData m = Some c ->
                  0 <= i /\ cs !! Z.to_nat i = Some c
  | Timer => True
  end.

(** The viewer has received every index below [n]. *)
Definition complete (v : Viewer) (n : nat) : Prop :=
  forall i, 0 <= i < Z.of_nat n -> i ∈ receivedChunks v.

(** A blob made of the first chunks of [cs], at least one. *)
Definition leading_chunks (cs blob : list bytes) : Prop :=
  blob <> [] /\ blob `prefix_of` cs.

(** The chunk indices that arrive in some steps: those of the chunk
    messages from other endpoints that carry an index and data. *)
Definition arrival (me : string) (s : Step) : option Z :=
  match s with
  | Message m =>
      if String.eqb (msg_from m) me then None
      else match msg_type m, msg_chunkData m with
           | VideoChunk, Some _ => msg_chunkIndex m
           | _, _ => None
           end
  | Timer => None
  end.

Definition arrivals (me : string) (steps : list Step) : gset Z :=
  list_to_set (omap (arrival me) steps).

(** A sample message sequence: metadata announcing two chunks, then
    chunks numbered 5 and 7. *)
Definition stray_chunks : list VideoStreamMessage :=
  [ mkMsg VideoMetadataMsg "broadcaster" (Some 131072) (Some "clip.webm")
          (Some "video/webm") (Some 2) None None None None;
    chunkMessage "broadcaster" 5 ["001"%byte];
    chunkMessage "broadcaster" 7 ["002"%byte] ].

End VideoFileViewer.

(** * Properties *)

(** ** Fragmenter / reassembler *)

Module StreamChannelFacts.

Import StreamChannel.





(** *** Splitting and gluing *)

Lemma MAX_CHUNK_SIZE_val : MAX_CHUNK_SIZE = 56320.
Proof. reflexivity. Qed.

Lemma ceil_div_bounds (a b : Z) :
  0 < a -> 0 < b ->
  b * (ceil_div a b - 1) < a <= b * ceil_div a b.
Proof.
  intros Ha Hb. unfold ceil_div.
  rewrite Z.rem_mod_nonneg by lia.
  pose proof (Z.div_mod a b ltac:(lia)) as Hdm.
  pose proof (Z.mod_pos_bound a b Hb) as Hr.
  destruct (Z.eqb_spec (a mod b) 0); nia.
Qed.

(** Every part but possibly the last is [MAX_CHUNK_SIZE] bytes of the
    payload taken at the part's offset; cutting at the payload's end
    does not change that. *)
Lemma subchunk_take_drop (data : bytes) (i : Z) :
  0 <= i ->
  subchunk data i
  = take (Z.to_nat MAX_CHUNK_SIZE) (drop (Z.to_nat (i * MAX_CHUNK_SIZE)) data).
Proof.
  intros Hi. unfold subchunk, slice.
  set (rest := drop (Z.to_nat (i * MAX_CHUNK_SIZE)) data).
  assert (Hrest : length rest = (length data - Z.to_nat (i * MAX_CHUNK_SIZE))%nat)
    by apply length_drop.
  rewrite MAX_CHUNK_SIZE_val in *.
  destruct (Z.le_gt_cases (i * 56320 + 56320) (Z.of_nat (length data))) as [Hle|Hgt].
  - rewrite Z.min_l by lia. f_equal. lia.
  - rewrite Z.min_r by lia.
    rewrite (take_ge rest (Z.to_nat 56320)) by lia.
    apply take_ge. lia.
Qed.

Lemma subchunk_length (data : bytes) (i : Z) :
  0 <= i -> Z.of_nat (length (subchunk data i)) <= MAX_CHUNK_SIZE.
Proof.
  intros Hi. rewrite subchunk_take_drop by done.
  rewrite length_take. rewrite MAX_CHUNK_SIZE_val. lia.
Qed.

Lemma concat_subchunks_from (data : bytes) (n : nat) (j : Z) :
  0 <= j ->
  concat (subchunk data <$> seqZ j (Z.of_nat n))
  = take (n * Z.to_nat MAX_CHUNK_SIZE) (drop (Z.to_nat (j * MAX_CHUNK_SIZE)) data).
Proof.
  revert j. induction n as [|n IH]; intros j Hj.
  - reflexivity.
  - rewrite seqZ_cons by lia.
    replace (Z.pred (Z.of_nat (S n))) with (Z.of_nat n) by lia.
    rewrite fmap_cons. cbn [concat].
    rewrite IH by lia. rewrite subchunk_take_drop by done.
    replace (Z.to_nat (Z.succ j * MAX_CHUNK_SIZE))
      with (Z.to_nat (j * MAX_CHUNK_SIZE) + Z.to_nat MAX_CHUNK_SIZE)%nat
      by (rewrite MAX_CHUNK_SIZE_val; lia).
    rewrite <- drop_drop. rewrite take_take_drop.
    f_equal.
Qed.

(** The parts, glued in index order, are the payload. *)
Lemma concat_subchunks (data : bytes) (n : Z) :
  0 <= n -> Z.of_nat (length data) <= MAX_CHUNK_SIZE * n ->
  concat (subchunk data <$> seqZ 0 n) = data.
Proof.
  intros Hn Hlen.
  rewrite <- (Z2Nat.id n) at 1 by done.
  rewrite concat_subchunks_from by done.
  cbn [Z.mul Z.to_nat drop]. apply take_ge.
  rewrite MAX_CHUNK_SIZE_val in *. lia.
Qed.

Lemma broadcastChunk_single (data : bytes) (f : Z) :
  Z.of_nat (length data) <= MAX_CHUNK_SIZE ->
  broadcastChunk data f = [(data, single_tag f)].
Proof.
  intros H. unfold broadcastChunk.
  destruct (Z.leb_spec (Z.of_nat (length data)) MAX_CHUNK_SIZE); [done | lia].
Qed.

Lemma broadcastChunk_split (data : bytes) (f : Z) :
  MAX_CHUNK_SIZE < Z.of_nat (length data) ->
  broadcastChunk data f
  = (fun i => (subchunk data i,
               part_tag f i (ceil_div (Z.of_nat (length data)) MAX_CHUNK_SIZE)))
      <$> seqZ 0 (ceil_div (Z.of_nat (length data)) MAX_CHUNK_SIZE).
Proof.
  intros H. unfold broadcastChunk.
  destruct (Z.leb_spec (Z.of_nat (length data)) MAX_CHUNK_SIZE); [lia | done].
Qed.

(** The number of parts of a payload that is split. *)
Lemma nparts_bounds (data : bytes) :
  MAX_CHUNK_SIZE < Z.of_nat (length data) ->
  2 <= ceil_div (Z.of_nat (length data)) MAX_CHUNK_SIZE
  /\ Z.of_nat (length data)
     <= MAX_CHUNK_SIZE * ceil_div (Z.of_nat (length data)) MAX_CHUNK_SIZE
  /\ (Z.of_nat (length data) <= 99 * MAX_CHUNK_SIZE ->
      ceil_div (Z.of_nat (length data)) MAX_CHUNK_SIZE <= 99)
  /\ (99 * MAX_CHUNK_SIZE < Z.of_nat (length data) ->
      100 <= ceil_div (Z.of_nat (length data)) MAX_CHUNK_SIZE).
Proof.
  intros H.
  pose proof (ceil_div_bounds (Z.of_nat (length data)) MAX_CHUNK_SIZE) as Hb.
  rewrite MAX_CHUNK_SIZE_val in *. lia.
Qed.

(** *** One frame through the reassembler *)






Section OneFrame.

Variable data : bytes.
Variables f T : Z.
Hypothesis Hf : 0 <= f.
Hypothesis HT : 2 <= T <= 99.



End OneFrame.

(** *** A whole frame, sent and received *)







Lemma hundred_part_payload_length :
  Z.of_nat (length hundred_part_payload) = 5575681.
Proof. unfold hundred_part_payload. rewrite length_replicate. lia. Qed.


Lemma hundred_part_payload_parts (f : Z) :
  broadcastChunk hundred_part_payload f
  = (fun i => (subchunk hundred_part_payload i, part_tag f i 100)) <$> seqZ 0 100.
Proof.
  rewrite broadcastChunk_split
    by (rewrite hundred_part_payload_length, MAX_CHUNK_SIZE_val; lia).
  rewrite hundred_part_payload_length. reflexivity.
Qed.




(** *** Round trip *)





(** *** No limit on the number of parts *)

(** C3 (as amended): [broadcastChunk] has no check on the number of
    parts.  A payload longer than [99 * MAX_CHUNK_SIZE] is cut like any
    other: all its [ceil(L / MAX_CHUNK_SIZE)] sub-chunks, 100 or more,
    are handed to the channel's send operation, in index order. *)
Theorem broadcastChunk_sends_all_parts (data : bytes) (frameNumber : Z) :
  99 * MAX_CHUNK_SIZE < Z.of_nat (length data) ->
  let nparts := ceil_div (Z.of_nat (length data)) MAX_CHUNK_SIZE in
  100 <= nparts
  /\ broadcastChunk data frameNumber
     = (fun i => (subchunk data i, part_tag frameNumber i nparts)) <$> seqZ 0 nparts
  /\ length (broadcastChunk data frameNumber) = Z.to_nat nparts.
Proof.
  intros Hlen nparts.
  assert (Hbig : MAX_CHUNK_SIZE < Z.of_nat (length data))
    by (rewrite MAX_CHUNK_SIZE_val in *; lia).
  destruct (nparts_bounds data Hbig) as (_ & _ & _ & H100).
  split; [by apply H100|].
  rewrite broadcastChunk_split by done. split; [reflexivity|].
  by rewrite length_fmap, length_seqZ.
Qed.

Lemma broadcastChunk_sends_all_parts_witness :
  let nparts := ceil_div (Z.of_nat (length hundred_part_payload)) MAX_CHUNK_SIZE in
  100 <= nparts
  /\ broadcastChunk hundred_part_payload 7
     = (fun i => (subchunk hundred_part_payload i, part_tag 7 i nparts))
         <$> seqZ 0 nparts
  /\ length (broadcastChunk hundred_part_payload 7) = Z.to_nat nparts.
Proof.
  apply (broadcastChunk_sends_all_parts hundred_part_payload 7).
  rewrite hundred_part_payload_length. vm_compute. reflexivity.
Defined.

(** C3 fails as stated: for a payload of 5_575_681 bytes, more than
    [99 * MAX_CHUNK_SIZE], the send operation is called 100 times. *)
Lemma oversize_payload_is_sent :
  99 * MAX_CHUNK_SIZE < Z.of_nat (length hundred_part_payload)
  /\ length (broadcastChunk hundred_part_payload 7) = 100%nat
  /\ broadcastChunk hundred_part_payload 7 <> [].
Proof.
  split; [rewrite hundred_part_payload_length; vm_compute; reflexivity|].
  rewrite hundred_part_payload_parts. split.
  - by rewrite length_fmap, length_seqZ.
  - rewrite (seqZ_cons 0 100) by lia. discriminate.
Qed.


(** *** Staleness *)




(** *** Repeated delivery *)




(** *** What is handed to the transport *)

Lemma subchunk_nonempty (data : bytes) (i : Z) :
  0 <= i -> i * MAX_CHUNK_SIZE < Z.of_nat (length data) ->
  subchunk data i <> [].
Proof.
  intros Hi Hlt Hnil. apply (f_equal length) in Hnil.
  rewrite subchunk_take_drop in Hnil by done.
  rewrite length_take, length_drop in Hnil. cbn [length] in Hnil.
  rewrite MAX_CHUNK_SIZE_val in *. lia.
Qed.

Lemma fst_sent_parts (data : bytes) (f n : Z) :
  ((fun i => (subchunk data i, part_tag f i n)) <$> seqZ 0 n).*1
  = subchunk data <$> seqZ 0 n.
Proof. rewrite <- list_fmap_compose. reflexivity. Qed.

(** X1: whatever the payload, the sub-chunks [broadcastChunk] hands to
    the transport are consecutive slices of it (glued in sending order
    they are the payload) and none is longer than [MAX_CHUNK_SIZE]; a
    payload longer than [MAX_CHUNK_SIZE] gives [ceil(L / MAX_CHUNK_SIZE)]
    sends, at least two, none of them empty. *)
Theorem broadcastChunk_slices_payload (data : bytes) (frameNumber : Z) :
  let sends := broadcastChunk data frameNumber in
  concat (sends.*1) = data
  /\ Forall (fun p => Z.of_nat (length p.1) <= MAX_CHUNK_SIZE) sends
  /\ (Z.of_nat (length data) <= MAX_CHUNK_SIZE -> length sends = 1%nat)
  /\ (MAX_CHUNK_SIZE < Z.of_nat (length data) ->
      Z.of_nat (length sends) = ceil_div (Z.of_nat (length data)) MAX_CHUNK_SIZE
      /\ (2 <= length sends)%nat
      /\ Forall (fun p => p.1 <> []) sends).
Proof.
  cbv zeta.
  destruct (Z.le_gt_cases (Z.of_nat (length data)) MAX_CHUNK_SIZE) as [Hsmall|Hbig].
  - rewrite broadcastChunk_single by done. cbn [fmap list_fmap fst concat].
    rewrite app_nil_r. split_and!; [done | | done | lia].
    by apply Forall_cons_2; [|apply Forall_nil_2].
  - destruct (nparts_bounds data) as (H2 & Hcover & _); [lia|].
    rewrite broadcastChunk_split by lia.
    set (n := ceil_div (Z.of_nat (length data)) MAX_CHUNK_SIZE) in *.
    pose proof (ceil_div_bounds (Z.of_nat (length data)) MAX_CHUNK_SIZE) as Hb.
    fold n in Hb. rewrite MAX_CHUNK_SIZE_val in Hb.
    split_and!.
    + rewrite fst_sent_parts. apply concat_subchunks; lia.
    + apply list.Forall_forall. intros p Hp.
      apply list_elem_of_fmap in Hp as (i & -> & Hi%elem_of_seqZ).
      apply subchunk_length. lia.
    + lia.
    + intros _. rewrite length_fmap, length_seqZ. split_and!; [lia | lia |].
      apply list.Forall_forall. intros p Hp.
      apply list_elem_of_fmap in Hp as (i & -> & Hi%elem_of_seqZ).
      apply subchunk_nonempty; [lia|]. rewrite MAX_CHUNK_SIZE_val in *. nia.
Qed.

(** X2: for a frame number [>= 0], no tag that [broadcastChunk] hands to
    the transport lies in the range [-10 .. -1] that
    [isWebRTCSignalSequence] reserves for signals. *)
Theorem broadcastChunk_tags_not_reserved (data : bytes) (frameNumber : Z) :
  0 <= frameNumber ->
  Forall (fun p => isWebRTCSignalSequence p.2 = false)
         (broadcastChunk data frameNumber).
Proof.
  intros Hf.
  assert (Hpos : forall s, 0 <= s -> isWebRTCSignalSequence s = false).
  { intros s Hs. unfold isWebRTCSignalSequence.
    replace (s <? 0) with false by zbool. reflexivity. }
  destruct (Z.le_gt_cases (Z.of_nat (length data)) MAX_CHUNK_SIZE) as [Hsmall|Hbig].
  - rewrite broadcastChunk_single by done.
    apply Forall_cons_2; [|apply Forall_nil_2].
    apply Hpos. unfold single_tag. cbn [snd]. lia.
  - destruct (nparts_bounds data) as (H2 & _); [lia|].
    rewrite broadcastChunk_split by lia.
    apply list.Forall_forall. intros p Hp.
    apply list_elem_of_fmap in Hp as (i & -> & Hi%elem_of_seqZ).
    apply Hpos. unfold part_tag. cbn [snd]. nia.
Qed.

Lemma broadcastChunk_tags_not_reserved_witness :
  Forall (fun p => isWebRTCSignalSequence p.2 = false)
         (broadcastChunk two_part_payload 7).
Proof. apply (broadcastChunk_tags_not_reserved two_part_payload 7). lia. Defined.

(** *** Parts that arrive twice *)

(** [handleChunkedMedia] on a part that is not a whole frame, in terms
    of the named steps. *)
Lemma handleChunkedMedia_part (now : Z) (pend : gmap Z Pending) (ev : StreamEvent)
    (data : bytes) (sequence : Z) :
  ev_data ev = Some data ->
  ev_sequence ev = Some sequence ->
  (totalParts_of sequence <=? 1) && (partNumber_of sequence =? 0) = false ->
  handleChunkedMedia now pend ev
  = let f := frameNumber_of sequence in
    let pending :=
      store_part (default (fresh_pending now ev (totalParts_of sequence)) (pend !! f))
                 (partNumber_of sequence) data (totalParts_of sequence) in
    if is_complete pending then
      match collect_parts (chunks pending) 0 (Z.to_nat (totalParts pending)) with
      | Some parts => (Some (concat parts), sweep now (delete f pend))
      | None => (None, delete f pend)
      end
    else (None, <[f := pending]> pend).
Proof.
  intros Hd Hs Hmulti. unfold handleChunkedMedia. rewrite Hd, Hs, Hmulti.
  reflexivity.
Qed.

Lemma store_part_twice (pending0 : Pending) (p : Z) (data : bytes) (n : Z) :
  store_part (store_part pending0 p data n) p data n = store_part pending0 p data n.
Proof.
  unfold store_part. cbn [chunks totalParts from timestamp].
  rewrite insert_insert_eq. by destruct (0 <? n).
Qed.

(** X3: a part that was stored without completing its frame can arrive
    again, at any later time, without any effect: nothing is handed on
    and the table of pending frames is the same as before. *)
Theorem repeated_part_changes_nothing (now now' : Z) (pend pend' : gmap Z Pending)
    (ev : StreamEvent) (frameNumber : Z) :
  frame_of ev = Some frameNumber ->
  handleChunkedMedia now pend ev = (None, pend') ->
  is_Some (pend' !! frameNumber) ->
  handleChunkedMedia now' pend' ev = (None, pend').
Proof.
  unfold frame_of. intros Hframe Hrun Hkept.
  destruct (ev_sequence ev) as [sequence|] eqn:Hseq; [|done].
  injection Hframe as <-.
  destruct (ev_data ev) as [data|] eqn:Hdata.
  2:{ unfold handleChunkedMedia in *. rewrite Hdata in *. by simplify_eq. }
  destruct ((totalParts_of sequence <=? 1) && (partNumber_of sequence =? 0))
    eqn:Hmulti.
  { unfold handleChunkedMedia in Hrun. by rewrite Hdata, Hseq, Hmulti in Hrun. }
  rewrite (handleChunkedMedia_part _ _ _ data sequence) in Hrun by done.
  rewrite (handleChunkedMedia_part _ _ _ data sequence) by done.
  cbv zeta in *.
  destruct (is_complete _) eqn:Hfull in Hrun.
  { destruct (collect_parts _ _ _) in Hrun; [done|]. simplify_eq.
    rewrite lookup_delete_eq in Hkept. by destruct Hkept. }
  injection Hrun as <-. rewrite lookup_insert_eq. cbn [from_option id].
  rewrite store_part_twice, Hfull. by rewrite insert_insert_eq.
Qed.

Lemma repeated_part_changes_nothing_witness :
  let ev := mkEvent (Some ["001"%byte]) (Some 70200) (Some "sender") (Some 1000) in
  handleChunkedMedia 9000 (handleChunkedMedia 1000 ∅ ev).2 ev
  = (None, (handleChunkedMedia 1000 ∅ ev).2).
Proof.
  intros ev.
  apply (repeated_part_changes_nothing 1000 9000 ∅ _ ev 7).
  - reflexivity.
  - vm_compute. reflexivity.
  - vm_compute. eauto.
Defined.

(** *** Frames that share the channel *)



Section SharedChannel.

Variable data : bytes.
Variables f T : Z.
Hypothesis Hf : 0 <= f.
Hypothesis HT : 2 <= T <= 99.
Hypothesis Hlen : Z.of_nat (length data) <= MAX_CHUNK_SIZE * T.


End SharedChannel.




(** *** The read loop and its listeners *)





(** X6: [on] followed by [off] for a callback that was not registered
    for that event type leaves the listeners of every type as they
    were; [off] for a callback that is not registered changes no
    listener list; and a callback registered twice is listed twice. *)
Theorem on_off_listeners (ch : Channel) (eventType other : string) (callback : Callback) :
  callback ∉ listeners_of ch eventType ->
  listeners_of (off (on ch eventType callback) eventType callback) other
    = listeners_of ch other
  /\ listeners_of (off ch eventType callback) other = listeners_of ch other
  /\ listeners_of (on (on ch eventType callback) eventType callback) eventType
     = listeners_of ch eventType ++ [callback; callback].
Proof.
  intros Hfresh.
  assert (Hrem : forall l, callback ∉ l ->
                   remove_first callback l = l
                   /\ remove_first callback (l ++ [callback]) = l).
  { induction l as [|cb l IH]; intros Hl.
    - cbn. by rewrite Nat.eqb_refl.
    - apply not_elem_of_cons in Hl as [Hne Hl]. cbn.
      destruct (Nat.eqb_spec cb callback) as [->|_]; [done|].
      destruct (IH Hl) as [-> ->]. done. }
  destruct (Hrem _ Hfresh) as [Hsame Hback].
  split_and!.
  - unfold off, on, listeners_of in *. cbn [eventListeners].
    rewrite lookup_insert_eq. cbn [eventListeners]. rewrite insert_insert_eq, Hback.
    destruct (decide (eventType = other)) as [->|Hne].
    + by rewrite lookup_insert_eq.
    + by rewrite lookup_insert_ne.
  - unfold off, listeners_of in *.
    destruct (eventListeners ch !! eventType) as [l|] eqn:Hl; [|done].
    cbn [eventListeners from_option id] in *. rewrite Hsame.
    by rewrite insert_id.
  - unfold on, listeners_of. cbn [eventListeners].
    rewrite !lookup_insert_eq. cbn. by rewrite <- app_assoc.
Qed.

Lemma on_off_listeners_witness :
  let ch := on (mkChannel ∅ ∅) "all" 1%nat in
  listeners_of (off (on ch "all" 2%nat) "all" 2%nat) "all" = listeners_of ch "all"
  /\ listeners_of (off ch "all" 2%nat) "all" = listeners_of ch "all"
  /\ listeners_of (on (on ch "all" 2%nat) "all" 2%nat) "all"
     = listeners_of ch "all" ++ [2%nat; 2%nat].
Proof.
  intros ch. apply (on_off_listeners ch "all" "all" 2%nat).
  vm_compute. intros H. apply list_elem_of_singleton in H. discriminate H.
Defined.

End StreamChannelFacts.

(** ** WebRTC signalling *)

Module LiveStreamingFacts.

Import LiveStreaming.

Lemma addAll_spec (cs : list RTCIceCandidateInit) (pc : PeerConnection) :
  addAll cs pc
  = mkPc (pc_tracks pc) (localDescription pc) (remoteDescription pc)
         (iceCandidates pc ++ cs).
Proof.
  revert pc. induction cs as [|c cs IH]; intros pc.
  - cbn. rewrite app_nil_r. by destruct pc.
  - cbn [addAll fold_left]. fold (addAll cs (addIceCandidate c pc)).
    rewrite IH. cbn. by rewrite <- app_assoc.
Qed.

(** Closes a goal stating that a handler run sent nothing new. *)
Ltac nothing_sent :=
  exists [];
  try match goal with H : streamChannel _ = _ |- _ => rewrite ?H end;
  cbn [streamChannel default];
  split; [by rewrite ?app_nil_r | by intros o Ho%elem_of_nil].

Lemma candidates_cons (s : WebRTCSignal) (l : list WebRTCSignal) :
  omap sig_candidate (s :: l)
  = match sig_candidate s with
    | Some c => c :: omap sig_candidate l
    | None => omap sig_candidate l
    end.
Proof. reflexivity. Qed.

Lemma passes_eqb (st : Page) (peer : string) (signal : WebRTCSignal) :
  passes st peer signal ->
  String.eqb (sig_from signal) (myEndpointId st) = false
  /\ exists sent, streamChannel st = Some sent.
Proof.
  intros (-> & Hne & _ & [sent Hsent]). split; [by apply String.eqb_neq | eauto].
Qed.

Section Handler.

Variable createOffer : PeerConnection -> option string.
Variable createAnswer : PeerConnection -> option string.

Abbreviation handle := (handleWebRTCSignal createOffer createAnswer).
Abbreviation handleMany := (handleAll createOffer createAnswer).

(** A signal from ourselves changes nothing. *)
Lemma handle_self (st : Page) (signal : WebRTCSignal) :
  sig_from signal = myEndpointId st -> handle st signal = st.
Proof.
  intros Hself. unfold handleWebRTCSignal.
  by rewrite Hself, String.eqb_refl.
Qed.

(** An ICE candidate for a peer whose remote description is set goes
    straight to the connection. *)
Lemma handle_ice_ready (st : Page) (peer : string) (signal : WebRTCSignal)
    (c : RTCIceCandidateInit) (pc : PeerConnection) :
  passes st peer signal ->
  sig_type signal = WebrtcIceCandidate ->
  sig_candidate signal = Some c ->
  peerConnections st !! peer = Some pc ->
  is_Some (remoteDescription pc) ->
  handle st signal
  = mkPage (myEndpointId st) (streamChannel st) (mediaStream st)
           (<[peer := addIceCandidate c pc]> (peerConnections st))
           (pendingIceCandidates st).
Proof.
  intros Hpass Hty Hc Hpc [d Hd].
  destruct (passes_eqb st peer signal Hpass) as (Hself & sent & Hsent).
  destruct Hpass as (Hfrom & _ & Hto & _).
  unfold handleWebRTCSignal.
  rewrite Hself, Hto, Hsent, Hty, Hc, Hfrom, Hpc, Hd. reflexivity.
Qed.

(** Otherwise it is appended to the peer's queue. *)
Lemma handle_ice_queued (st : Page) (peer : string) (signal : WebRTCSignal)
    (c : RTCIceCandidateInit) :
  passes st peer signal ->
  sig_type signal = WebrtcIceCandidate ->
  sig_candidate signal = Some c ->
  ¬ ready st peer ->
  handle st signal
  = mkPage (myEndpointId st) (streamChannel st) (mediaStream st)
           (peerConnections st)
           (<[peer := queue_of st peer ++ [c]]> (pendingIceCandidates st)).
Proof.
  intros Hpass Hty Hc Hnot.
  destruct (passes_eqb st peer signal Hpass) as (Hself & sent & Hsent).
  destruct Hpass as (Hfrom & _ & Hto & _).
  unfold handleWebRTCSignal.
  rewrite Hself, Hto, Hsent, Hty, Hc, Hfrom.
  destruct (peerConnections st !! peer) as [pc|] eqn:Hpc; [|reflexivity].
  destruct (remoteDescription pc) as [d|] eqn:Hd; [|reflexivity].
  exfalso. apply Hnot. exists pc. rewrite Hd. eauto.
Qed.

Lemma handle_ice_without_candidate (st : Page) (signal : WebRTCSignal) :
  sig_type signal = WebrtcIceCandidate ->
  sig_candidate signal = None ->
  handle st signal = st.
Proof.
  intros Hty Hc. unfold handleWebRTCSignal. rewrite Hty, Hc.
  repeat case_match; reflexivity.
Qed.

(** A run of ICE signals from a peer that is not ready: every candidate
    lands in the queue, in arrival order, and nothing else moves. *)
Lemma handle_ice_run (peer : string) (ices : list WebRTCSignal) :
  forall st : Page,
    Forall (fun s => passes st peer s /\ sig_type s = WebrtcIceCandidate) ices ->
    ¬ ready st peer ->
    let st' := handleMany st ices in
    myEndpointId st' = myEndpointId st
    /\ streamChannel st' = streamChannel st
    /\ peerConnections st' = peerConnections st
    /\ queue_of st' peer = queue_of st peer ++ omap sig_candidate ices.
Proof.
  induction ices as [|s ices IH]; intros st Hall Hnot.
  - cbn. by rewrite app_nil_r.
  - apply list.Forall_cons in Hall as [[Hpass Hty] Hall].
    cbn [handleAll fold_left]. fold (handleMany (handle st s) ices).
    assert (Hstep : myEndpointId (handle st s) = myEndpointId st
                    /\ streamChannel (handle st s) = streamChannel st
                    /\ peerConnections (handle st s) = peerConnections st
                    /\ queue_of (handle st s) peer
                       = queue_of st peer ++ omap sig_candidate [s]).
    { rewrite candidates_cons.
      destruct (sig_candidate s) as [c|] eqn:Hc.
      - rewrite (handle_ice_queued st peer s c) by done.
        split_and!; [done..|].
        unfold queue_of at 1. cbn [pendingIceCandidates].
        by rewrite lookup_insert_eq.
      - rewrite handle_ice_without_candidate by done.
        by rewrite app_nil_r. }
    destruct Hstep as (Hme & Hch & Hpcs & Hq).
    destruct (IH (handle st s)) as (Hme' & Hch' & Hpcs' & Hq').
    + eapply list.Forall_impl; [exact Hall|]. intros s' [(? & ? & ? & ?) ?].
      unfold passes. rewrite Hme, Hch. done.
    + unfold ready. by rewrite Hpcs.
    + cbn zeta. rewrite Hme', Hch', Hpcs', Hq', Hme, Hch, Hpcs, Hq.
      repeat split. rewrite <- app_assoc. f_equal.
      rewrite !candidates_cons. by destruct (sig_candidate s).
Qed.

(** An offer: a fresh handle takes the remote description and then the
    whole queue; the queue is deleted. *)
Lemma handle_offer (st : Page) (peer : string) (signal : WebRTCSignal) :
  passes st peer signal ->
  sig_type signal = WebrtcOffer ->
  let st' := handle st signal in
  ready st' peer
  /\ applied_of st' peer = queue_of st peer
  /\ pendingIceCandidates st' !! peer = None
  /\ myEndpointId st' = myEndpointId st
  /\ is_Some (streamChannel st').
Proof.
  intros Hpass Hty.
  destruct (passes_eqb st peer signal Hpass) as (Hself & sent & Hsent).
  destruct Hpass as (Hfrom & _ & Hto & _).
  unfold handleWebRTCSignal.
  rewrite Hself, Hto, Hsent, Hty, Hfrom. cbn zeta.
  rewrite addAll_spec. unfold ready, applied_of. cbn.
  rewrite lookup_insert_eq, lookup_delete_eq. cbn.
  repeat split; eauto.
Qed.

(** An answer for an existing handle: the handle takes the remote
    description and then the whole queue; the queue is deleted. *)
Lemma handle_answer (st : Page) (peer : string) (signal : WebRTCSignal) :
  passes st peer signal ->
  sig_type signal = WebrtcAnswer ->
  is_Some (peerConnections st !! peer) ->
  let st' := handle st signal in
  ready st' peer
  /\ applied_of st' peer = applied_of st peer ++ queue_of st peer
  /\ pendingIceCandidates st' !! peer = None
  /\ myEndpointId st' = myEndpointId st
  /\ is_Some (streamChannel st').
Proof.
  intros Hpass Hty [pc Hpc].
  destruct (passes_eqb st peer signal Hpass) as (Hself & sent & Hsent).
  destruct Hpass as (Hfrom & _ & Hto & _).
  unfold handleWebRTCSignal.
  rewrite Hself, Hto, Hsent, Hty, Hfrom, Hpc. cbn zeta.
  rewrite addAll_spec. unfold ready, applied_of. cbn.
  rewrite lookup_insert_eq, lookup_delete_eq, Hpc. cbn.
  repeat split; eauto.
Qed.

(** C6: an ICE candidate from peer [P] that reaches the handler is
    applied at once when [P] has a connection handle whose remote
    description is set; otherwise it is appended to [P]'s queue.  When
    the remote description of [P] is then applied (by an offer, or by an
    answer for an existing handle), every queued candidate is applied,
    in the order received and none lost, and the queue of [P] is
    deleted. *)
Theorem ice_candidates_queued_then_applied (st : Page) (peer : string)
    (ices : list WebRTCSignal) (flush : WebRTCSignal) :
  Forall (fun s => passes st peer s /\ sig_type s = WebrtcIceCandidate) ices ->
  ¬ ready st peer ->
  passes st peer flush ->
  applies_remote st peer flush ->
  let queued := handleMany st ices in
  let flushed := handle queued flush in
  (queue_of queued peer = queue_of st peer ++ omap sig_candidate ices
   /\ peerConnections queued = peerConnections st)
  /\ (ready flushed peer
      /\ applied_of flushed peer
         = match sig_type flush with
           | WebrtcOffer => []
           | _ => applied_of st peer
           end ++ queue_of st peer ++ omap sig_candidate ices
      /\ pendingIceCandidates flushed !! peer = None)
  /\ (forall (st0 : Page) (s : WebRTCSignal) (c : RTCIceCandidateInit),
        ready st0 peer -> passes st0 peer s ->
        sig_type s = WebrtcIceCandidate -> sig_candidate s = Some c ->
        applied_of (handle st0 s) peer = applied_of st0 peer ++ [c]
        /\ pendingIceCandidates (handle st0 s) = pendingIceCandidates st0).
Proof.
  intros Hices Hnot Hflush Hkind queued flushed.
  destruct (handle_ice_run peer ices st Hices Hnot) as (Hme & Hch & Hpcs & Hq).
  fold queued in Hme, Hch, Hpcs, Hq.
  assert (Hpass : passes queued peer flush).
  { destruct Hflush as (? & ? & ? & ?). unfold passes. by rewrite Hme, Hch. }
  split; [done|]. split.
  - destruct Hkind as [Hoffer | [Hanswer Hhandle]].
    + destruct (handle_offer queued peer flush Hpass Hoffer) as (Hr & Ha & Hp & _).
      fold flushed in Hr, Ha, Hp. rewrite Hoffer, Ha, Hq. done.
    + rewrite <- Hpcs in Hhandle.
      destruct (handle_answer queued peer flush Hpass Hanswer Hhandle)
        as (Hr & Ha & Hp & _).
      fold flushed in Hr, Ha, Hp. rewrite Hanswer, Ha, Hq.
      unfold applied_of at 1. rewrite Hpcs. done.
  - intros st0 s c (pc & Hpc & Hdesc) Hs Hty Hc.
    rewrite (handle_ice_ready st0 peer s c pc) by done.
    unfold applied_of. cbn [peerConnections pendingIceCandidates].
    rewrite lookup_insert_eq, Hpc. done.
Qed.

(** C7: a [webrtc-request-offer] received while the local media source
    is absent or has no track in the live state leaves the page as it
    was: no peer connection is created and nothing is sent.  Whatever
    the signal, an offer is sent only in answer to a request-offer and
    only when at least one track is live. *)
Theorem request_offer_needs_live_track (st : Page) (signal : WebRTCSignal) :
  (sig_type signal = WebrtcRequestOffer -> live_tracks st = [] ->
   handle st signal = st)
  /\ exists new,
       sent_signals (handle st signal) = sent_signals st ++ new
       /\ forall o, o ∈ new -> sig_type o = WebrtcOffer ->
            sig_type signal = WebrtcRequestOffer /\ live_tracks st <> [].
Proof.
  split.
  - intros Hty Hlive. unfold handleWebRTCSignal, live_tracks in *.
    rewrite Hty.
    destruct (String.eqb _ _); [done|].
    destruct (targeted_elsewhere _ _); [done|].
    destruct (streamChannel st); [|done].
    destruct (mediaStream st); [|done].
    by rewrite Hlive.
  - unfold handleWebRTCSignal, sent_signals.
    destruct (String.eqb _ _); [nothing_sent|].
    destruct (targeted_elsewhere _ _); [nothing_sent|].
    destruct (streamChannel st) as [sent|] eqn:Hch; [|nothing_sent].
    destruct (sig_type signal) eqn:Hty.
    + eexists [_]. split; [reflexivity|].
      intros o ->%list_elem_of_singleton Ho. discriminate Ho.
    + destruct (peerConnections st !! _); nothing_sent.
    + repeat case_match; nothing_sent.
    + unfold live_tracks.
      destruct (mediaStream st) as [stream|]; [|nothing_sent].
      destruct (length (List.filter is_live stream) =? 0)%nat eqn:Hlen;
        [nothing_sent|].
      eexists [_]. split; [reflexivity|].
      intros o _ _. split; [done|]. intros Hnil.
      rewrite Hnil in Hlen. discriminate Hlen.
Qed.

End Handler.

Lemma passes_viewer_page (s : WebRTCSignal) :
  sig_from s = "broadcaster" ->
  targeted_elsewhere "viewer" (sig_to s) = false ->
  passes viewer_page "broadcaster" s.
Proof.
  intros Hfrom Hto. unfold passes. split_and!; [done | discriminate | done |].
  by exists [].
Qed.

Lemma ice_candidates_queued_then_applied_witness :
  let ices := [iceSignal "broadcaster" (sample_candidate 0);
               iceSignal "broadcaster" (sample_candidate 1)] in
  let offer := mkSignal WebrtcOffer "broadcaster" (Some "viewer") (Some "v=0") None in
  let flushed :=
    handleWebRTCSignal sample_offer sample_answer
      (handleAll sample_offer sample_answer viewer_page ices) offer in
  applied_of flushed "broadcaster" = [sample_candidate 0; sample_candidate 1]
  /\ pendingIceCandidates flushed !! "broadcaster" = None.
Proof.
  intros ices offer flushed.
  destruct (ice_candidates_queued_then_applied sample_offer sample_answer
              viewer_page "broadcaster" ices offer) as (_ & (_ & Ha & Hp) & _).
  - repeat apply Forall_cons_2; [..| apply Forall_nil_2];
      (split; [apply passes_viewer_page; reflexivity | reflexivity]).
  - intros (pc & Hpc & _). discriminate Hpc.
  - apply passes_viewer_page; reflexivity.
  - by left.
  - split; [exact Ha | exact Hp].
Defined.

Lemma request_offer_needs_live_track_witness :
  handleWebRTCSignal sample_offer sample_answer camera_off_page
    (mkSignal WebrtcRequestOffer "viewer" None None None)
  = camera_off_page.
Proof.
  apply (proj1 (request_offer_needs_live_track sample_offer sample_answer
                  camera_off_page
                  (mkSignal WebrtcRequestOffer "viewer" None None None)));
    reflexivity.
Defined.

(** *** Stream events and the retry interval *)

Lemma ids_filter (f : Neighbor -> bool) (ns : list Neighbor) :
  NoDup (n_id <$> ns) -> NoDup (n_id <$> List.filter f ns).
Proof.
  induction ns as [|n ns IH]; [done|].
  rewrite fmap_cons, list.NoDup_cons. intros [Hnew Hrest]. cbn [List.filter].
  destruct (f n); [|by apply IH].
  rewrite fmap_cons. apply list.NoDup_cons. split; [|by apply IH].
  intros Hin. apply Hnew. apply list_elem_of_fmap in Hin as (m & -> & Hm).
  apply list_elem_of_fmap. exists m. split; [done|].
  apply list_elem_of_In, List.filter_In in Hm as [Hm _]. by apply list_elem_of_In.
Qed.

Lemma ids_filter_out (id : string) (ns : list Neighbor) :
  id ∉ n_id <$> List.filter (fun n => negb (String.eqb (n_id n) id)) ns.
Proof.
  intros Hin. apply list_elem_of_fmap in Hin as (m & -> & Hm).
  apply list_elem_of_In, List.filter_In in Hm as [_ Hm].
  by rewrite String.eqb_refl in Hm.
Qed.

Lemma ids_presence (sender name : string) (now : Z) (ns : list Neighbor) :
  n_id <$> List.map (fun n => if String.eqb (n_id n) sender
                              then mkNeighbor (n_id n) (Some name) now else n) ns
  = n_id <$> ns.
Proof.
  induction ns as [|n ns IH]; [done|].
  cbn [List.map]. rewrite !fmap_cons, IH. by destruct (String.eqb _ _).
Qed.

Lemma ids_unknown (id : string) (ns : list Neighbor) :
  existsb (fun n => String.eqb (n_id n) id) ns = false -> id ∉ n_id <$> ns.
Proof.
  intros Hnone Hin. apply list_elem_of_fmap in Hin as (m & -> & Hm).
  assert (Htrue : existsb (fun n => String.eqb (n_id n) (n_id m)) ns = true).
  { apply List.existsb_exists. exists m. split; [by apply list_elem_of_In|].
    apply String.eqb_refl. }
  congruence.
Qed.

Lemma ids_known (id : string) (ns : list Neighbor) :
  existsb (fun n => String.eqb (n_id n) id) ns = true -> id ∈ n_id <$> ns.
Proof.
  intros Hsome. apply List.existsb_exists in Hsome as (m & Hm & Heq).
  apply String.eqb_eq in Heq as <-. apply list_elem_of_fmap. exists m.
  split; [done | by apply list_elem_of_In].
Qed.

Section PageFacts.

Variable createOffer : PeerConnection -> option string.
Variable createAnswer : PeerConnection -> option string.

Abbreviation handle := (handleWebRTCSignal createOffer createAnswer).
Abbreviation onEvent := (handleStreamEvent createOffer createAnswer).
Abbreviation onAll := (happenAll createOffer createAnswer).

(** What one run of the handler sends: nothing, or one reply to the
    signal, under the page's own identity. *)
Lemma handle_sends (st : Page) (signal : WebRTCSignal) :
  myEndpointId (handle st signal) = myEndpointId st
  /\ exists new,
       sent_signals (handle st signal) = sent_signals st ++ new
       /\ (length new <= 1)%nat
       /\ Forall (fun r => sig_from r = myEndpointId st /\ replies_to r signal) new.
Proof.
  assert (Hsame : myEndpointId st = myEndpointId st
                  /\ exists new,
                       sent_signals st = sent_signals st ++ new
                       /\ (length new <= 1)%nat
                       /\ Forall (fun r => sig_from r = myEndpointId st
                                           /\ replies_to r signal) new).
  { split; [done|]. exists []. rewrite app_nil_r. split_and!; [done | cbn; lia | done]. }
  unfold handleWebRTCSignal.
  destruct (String.eqb _ _); [done|].
  destruct (targeted_elsewhere _ _); [done|].
  destruct (streamChannel st) as [sent|] eqn:Hsent; [|done].
  assert (Hquiet : forall pcs queue,
            let st' := mkPage (myEndpointId st) (Some sent) (mediaStream st)
                              pcs queue in
            myEndpointId st' = myEndpointId st
            /\ exists new,
                 sent_signals st' = sent_signals st ++ new
                 /\ (length new <= 1)%nat
                 /\ Forall (fun r => sig_from r = myEndpointId st
                                     /\ replies_to r signal) new).
  { intros pcs queue. split; [done|]. exists []. rewrite app_nil_r.
    unfold sent_signals. rewrite Hsent.
    split_and!; [done | cbn; lia | done]. }
  assert (Hreply : forall r pcs queue,
            sig_from r = myEndpointId st -> replies_to r signal ->
            let st' := mkPage (myEndpointId st) (Some (sent ++ [r])) (mediaStream st)
                              pcs queue in
            myEndpointId st' = myEndpointId st
            /\ exists new,
                 sent_signals st' = sent_signals st ++ new
                 /\ (length new <= 1)%nat
                 /\ Forall (fun r => sig_from r = myEndpointId st
                                     /\ replies_to r signal) new).
  { intros r pcs queue Hfrom Hto. split; [done|]. exists [r].
    unfold sent_signals. rewrite Hsent. cbn.
    split_and!; [done | lia | by apply Forall_cons_2]. }
  destruct (sig_type signal) eqn:Hty.
  - apply Hreply; [done|]. split; [done | by right].
  - destruct (peerConnections st !! _); [apply Hquiet | done].
  - destruct (sig_candidate signal); [|done].
    destruct (peerConnections st !! _) as [pc|]; [|apply Hquiet].
    destruct (remoteDescription pc); apply Hquiet.
  - destruct (mediaStream st) as [stream|] eqn:Hstream; [|done].
    destruct (_ =? _)%nat; [done|].
    apply Hreply; [done|]. split; [done | by left].
Qed.

Lemma handle_requests (st : Page) (signal : WebRTCSignal) :
  offer_requests (handle st signal) = offer_requests st.
Proof.
  destruct (handle_sends st signal) as (_ & new & Hsent & _ & Hnew).
  unfold offer_requests. rewrite Hsent, List.filter_app.
  assert (Hnone : List.filter is_request new = []).
  { clear Hsent. induction Hnew as [|r new [_ [_ Hr]] _ IH]; [done|].
    cbn [List.filter]. unfold is_request at 1.
    by destruct Hr as [[_ ->]|[_ ->]]. }
  by rewrite Hnone, app_nil_r.
Qed.

(** An event leaves the identity and the requests sent as they are. *)
Lemma onEvent_requests (now : Z) (v : View) (event : PageEvent) :
  offer_requests (refs (onEvent now v event)) = offer_requests (refs v)
  /\ myEndpointId (refs (onEvent now v event)) = myEndpointId (refs v).
Proof.
  unfold handleStreamEvent, forwardSignal.
  destruct (pe_type event).
  - destruct (truthy _); [|done]. by destruct (existsb _ _).
  - by destruct (truthy _).
  - destruct (truthy (pe_from event)); [|done]. by destruct (truthy (pe_name event)).
  - destruct (pe_signal event) as [signal|]; [|done]. cbn [set_refs refs].
    split; [apply handle_requests | apply handle_sends].
  - destruct (pe_signal event) as [signal|]; [|done]. cbn [set_refs refs].
    split; [apply handle_requests | apply handle_sends].
  - done.
Qed.

Lemma onEvent_ids (now : Z) (v : View) (event : PageEvent) :
  NoDup (neighbor_ids v) -> NoDup (neighbor_ids (onEvent now v event)).
Proof.
  intros Hv. unfold handleStreamEvent, forwardSignal.
  destruct (pe_type event).
  - destruct (truthy _) as [id|]; [|done].
    destruct (existsb _ _) eqn:Hknown; [done|].
    unfold neighbor_ids. cbn [set_neighbors neighbors]. rewrite fmap_app.
    apply list.NoDup_app. split_and!; [done | | apply NoDup_singleton].
    intros x Hx Hid. apply list_elem_of_singleton in Hid as ->.
    by apply (ids_unknown id (neighbors v)).
  - destruct (truthy _) as [id|]; [|done]. by apply ids_filter.
  - destruct (truthy (pe_from event)); [|done].
    destruct (truthy (pe_name event)); [|done].
    unfold neighbor_ids. cbn [set_neighbors neighbors]. by rewrite ids_presence.
  - by destruct (pe_signal event).
  - by destruct (pe_signal event).
  - done.
Qed.

(** X17: the neighbour list never shows an endpoint twice, whatever
    events arrive and however often the retry interval fires.  A
    [neighborUp] event with an id makes that endpoint a neighbour; a
    [neighborDown] event with an id removes it from the list and drops
    its connection handle, and leaves the queued ICE candidates, the
    other handles and everything sent as they were. *)
Theorem neighbours_stay_unique (w : View * Retry) (hs : list Happening) :
  NoDup (neighbor_ids w.1) ->
  NoDup (neighbor_ids (onAll w hs).1)
  /\ (forall now v event id,
        truthy (pe_endpointId event) = Some id ->
        pe_type event = StreamChannel.NeighborUp ->
        id ∈ neighbor_ids (onEvent now v event))
  /\ (forall now v event id,
        truthy (pe_endpointId event) = Some id ->
        pe_type event = StreamChannel.NeighborDown ->
        let v' := onEvent now v event in
        (id ∉ neighbor_ids v')
        /\ peerConnections (refs v') = delete id (peerConnections (refs v))
        /\ pendingIceCandidates (refs v') = pendingIceCandidates (refs v)
        /\ sent_signals (refs v') = sent_signals (refs v)).
Proof.
  intros Hw. split_and!.
  - revert w Hw. induction hs as [|h hs IH]; intros w Hw; [done|].
    cbn [happenAll fold_left]. apply IH. destruct h as [now event|]; cbn [happen fst].
    + by apply onEvent_ids.
    + by destruct (retryTick _ _).
  - intros now v event id Hid Hty. unfold handleStreamEvent. rewrite Hty, Hid.
    destruct (existsb _ _) eqn:Hknown; [by apply ids_known|].
    unfold neighbor_ids. cbn [set_neighbors neighbors]. rewrite fmap_app.
    apply elem_of_app. right. by apply list_elem_of_singleton.
  - intros now v event id Hid Hty. cbv zeta. unfold handleStreamEvent. rewrite Hty, Hid.
    split_and!; [apply ids_filter_out | done | done | done].
Qed.

(** X18: ICE candidates queued for a peer outlive its [neighborDown]
    event: when an offer from that peer is handled afterwards, the
    candidates queued before the peer went away are applied, in order, to
    the connection made for the offer. *)
Theorem queued_candidates_outlive_neighbor (v : View) (peer : string)
    (now now' : Z) (down arrival : PageEvent) (offer : WebRTCSignal) :
  pe_type down = StreamChannel.NeighborDown ->
  truthy (pe_endpointId down) = Some peer ->
  pe_type arrival = StreamChannel.Signal ->
  pe_signal arrival = Some offer ->
  sig_type offer = WebrtcOffer ->
  passes (refs v) peer offer ->
  let v' := onEvent now' (onEvent now v down) arrival in
  ready (refs v') peer
  /\ applied_of (refs v') peer = queue_of (refs v) peer
  /\ queue_of (refs v') peer = [].
Proof.
  intros Hdown Hid Harrival Hsignal Hoffer Hpass. cbv zeta.
  set (st := refs v).
  set (v1 := mkView (mkPage (myEndpointId st) (streamChannel st) (mediaStream st)
                            (delete peer (peerConnections st)) (pendingIceCandidates st))
                    (List.filter (fun n => negb (String.eqb (n_id n) peer)) (neighbors v))
                    (chunkCount v)).
  assert (Hfirst : onEvent now v down = v1)
    by (unfold handleStreamEvent; by rewrite Hdown, Hid).
  assert (Hsecond : onEvent now' v1 arrival = set_refs v1 (handle (refs v1) offer))
    by (unfold handleStreamEvent, forwardSignal; by rewrite Harrival, Hsignal).
  rewrite Hfirst, Hsecond.
  change (ready (handle (refs v1) offer) peer
          /\ applied_of (handle (refs v1) offer) peer = queue_of (refs v1) peer
          /\ queue_of (handle (refs v1) offer) peer = []).
  assert (Hpass1 : passes (refs v1) peer offer) by exact Hpass.
  destruct (handle_offer createOffer createAnswer (refs v1) peer offer Hpass1 Hoffer)
    as (Hready & Happlied & Hqueue & _).
  split_and!; [exact Hready | exact Happlied |]. unfold queue_of. by rewrite Hqueue.
Qed.

End PageFacts.

Lemma neighbours_stay_unique_witness :
  let up := mkPageEvent StreamChannel.NeighborUp (Some "peer") None None None in
  let w := (mkView viewer_page [] 0, mkRetry 0 false) in
  NoDup (neighbor_ids
           (happenAll sample_offer sample_answer w
              [Arrives 1 up; RetryFires; Arrives 2 up]).1).
Proof.
  intros up w.
  apply (neighbours_stay_unique sample_offer sample_answer w
           [Arrives 1 up; RetryFires; Arrives 2 up]).
  apply NoDup_nil_2.
Defined.

Lemma queued_candidates_outlive_neighbor_witness :
  let v := mkView (handleWebRTCSignal sample_offer sample_answer viewer_page
                     (iceSignal "peer" (sample_candidate 0))) [] 0 in
  let down := mkPageEvent StreamChannel.NeighborDown (Some "peer") None None None in
  let offer := mkSignal WebrtcOffer "peer" (Some "viewer") (Some "v=0 offer") None in
  let arrival := mkPageEvent StreamChannel.Signal None None None (Some offer) in
  let v' := handleStreamEvent sample_offer sample_answer 2
              (handleStreamEvent sample_offer sample_answer 1 v down) arrival in
  ready (refs v') "peer"
  /\ applied_of (refs v') "peer" = queue_of (refs v) "peer"
  /\ queue_of (refs v') "peer" = [].
Proof.
  intros v down offer arrival.
  apply (queued_candidates_outlive_neighbor sample_offer sample_answer
           v "peer" 1 2 down arrival offer); try reflexivity.
  split_and!; [reflexivity | discriminate | reflexivity | by eexists].
Defined.

Section RetryFacts.

Variable createOffer : PeerConnection -> option string.
Variable createAnswer : PeerConnection -> option string.

Abbreviation step := (happen createOffer createAnswer).
Abbreviation steps := (happenAll createOffer createAnswer).

Lemma retryTick_cleared (w : View * Retry) :
  cleared w.2 = true -> step w RetryFires = (set_refs w.1 (refs w.1), w.2).
Proof.
  intros Hc. cbn [happen]. unfold retryTick. rewrite Hc. by destruct w.
Qed.

Lemma step_within (me : string) (w : View * Retry) (h : Happening) :
  within_retries me w -> within_retries me (step w h).
Proof.
  intros (Hme & Hown & Hmax & Hrun). destruct h as [now event|]; cbn [happen].
  - destruct (onEvent_requests createOffer createAnswer now w.1 event) as [Hr He].
    unfold within_retries. cbn [fst snd]. rewrite Hr, He. done.
  - unfold retryTick. destruct (cleared w.2) eqn:Hc.
    { unfold within_retries. cbn [fst snd set_refs refs]. rewrite Hc.
      split_and!; [done | done | done | discriminate]. }
    specialize (Hrun eq_refl). unfold maxRetries in *.
    destruct (0 <? size _)%nat.
    { unfold within_retries. cbn [fst snd set_refs refs cleared].
      split_and!; [done | done | done | discriminate]. }
    destruct (Z.gtb_spec (retryCount w.2 + 1) 10) as [Hover|Hroom].
    { unfold within_retries. cbn [fst snd set_refs refs cleared].
      split_and!; [done | done | done | discriminate]. }
    destruct (streamChannel (refs w.1)) as [sent|] eqn:Hsent.
    + assert (Hreqs : offer_requests
                        (mkPage (myEndpointId (refs w.1))
                           (Some (sent ++ [requestSignal (myEndpointId (refs w.1))]))
                           (mediaStream (refs w.1)) (peerConnections (refs w.1))
                           (pendingIceCandidates (refs w.1)))
                      = offer_requests (refs w.1) ++ [requestSignal me]).
      { unfold offer_requests, sent_signals. rewrite Hsent.
        cbn [streamChannel from_option id]. by rewrite List.filter_app, Hme. }
      unfold within_retries. cbn [fst snd set_refs refs]. rewrite Hreqs.
      rewrite length_app. cbn [length myEndpointId retryCount cleared].
      unfold maxRetries. split_and!; [done | | lia | lia].
      apply Forall_app_2; [done | by apply Forall_cons_2].
    + unfold within_retries. cbn [fst snd set_refs refs retryCount cleared].
      unfold maxRetries. split_and!; [done | done | done | lia].
Qed.

Lemma steps_within (me : string) (hs : list Happening) :
  forall w, within_retries me w -> within_retries me (steps w hs).
Proof.
  induction hs as [|h hs IH]; intros w Hw; [done|].
  cbn [happenAll fold_left]. apply IH. by apply step_within.
Qed.

(** Once cleared, the interval never sends again. *)
Lemma steps_cleared (hs : list Happening) :
  forall w,
    cleared w.2 = true ->
    offer_requests (refs (steps w hs).1) = offer_requests (refs w.1).
Proof.
  induction hs as [|h hs IH]; intros w Hc; [done|].
  change (steps w (h :: hs)) with (steps (step w h) hs).
  destruct h as [now event|].
  - rewrite IH by done. cbn [happen fst].
    apply (onEvent_requests createOffer createAnswer).
  - rewrite retryTick_cleared by done. by rewrite IH.
Qed.

(** X19: the retry interval of a page that joins a stream sends at most
    ten requests for an offer, whatever events arrive in between; each is
    the unaddressed request signed by the page, and the signal handler
    itself never sends one.  Once a firing finds a connection handle, no
    request is sent ever again, even if that handle is removed later. *)
Theorem retry_requests_bounded (w : View * Retry) (hs : list Happening) :
  w.2 = mkRetry 0 false ->
  offer_requests (refs w.1) = [] ->
  let w' := steps w hs in
  (length (offer_requests (refs w'.1)) <= 10)%nat
  /\ Forall (fun s => s = requestSignal (myEndpointId (refs w.1)))
            (offer_requests (refs w'.1))
  /\ (forall later,
        (0 < size (peerConnections (refs w'.1)))%nat ->
        offer_requests (refs (steps (step w' RetryFires) later).1)
        = offer_requests (refs w'.1)).
Proof.
  intros Hfresh Hnone. cbv zeta.
  assert (Hw : within_retries (myEndpointId (refs w.1)) w).
  { unfold within_retries. rewrite Hnone, Hfresh. cbn. unfold maxRetries.
    split_and!; [done | done | lia | lia]. }
  destruct (steps_within _ hs w Hw) as (_ & Hown & Hmax & _).
  unfold maxRetries in Hmax. split_and!; [lia | done |].
  intros later Hconnected. set (w' := steps w hs) in *.
  apply Nat.ltb_lt in Hconnected.
  assert (Hfire : step w' RetryFires
                  = (set_refs w'.1 (refs w'.1),
                     if cleared w'.2 then w'.2
                     else mkRetry (retryCount w'.2 + 1) true)).
  { cbn [happen]. unfold retryTick. rewrite Hconnected. by destruct (cleared w'.2). }
  rewrite Hfire, steps_cleared; [done|].
  cbn [snd]. by destruct (cleared w'.2) eqn:Hc.
Qed.


End RetryFacts.

Lemma retry_requests_bounded_witness :
  let w := (mkView viewer_page [] 0, mkRetry 0 false) in
  let w' := happenAll sample_offer sample_answer w (replicate 12 RetryFires) in
  (length (offer_requests (refs w'.1)) <= 10)%nat
  /\ Forall (fun s => s = requestSignal "viewer") (offer_requests (refs w'.1))
  /\ (forall later,
        (0 < size (peerConnections (refs w'.1)))%nat ->
        offer_requests
          (refs (happenAll sample_offer sample_answer
                   (happen sample_offer sample_answer w' RetryFires) later).1)
        = offer_requests (refs w'.1)).
Proof.
  intros w.
  apply (retry_requests_bounded sample_offer sample_answer w (replicate 12 RetryFires));
    reflexivity.
Defined.

End LiveStreamingFacts.

(** ** File-chunk exchange: the broadcaster *)

Module VideoFileBroadcasterFacts.

Import VideoStreaming VideoFileBroadcaster.

(** [prepare()] leaves [metadata.totalChunks] equal to the number of
    chunks held. *)
Lemma prepare_totalChunks (b : Broadcaster) :
  totalChunks (metadata (prepare b)) = Z.of_nat (length (chunks (prepare b))).
Proof. reflexivity. Qed.

Lemma broadcastChunk_in_range (b : Broadcaster) (index : Z) (chunk : bytes) :
  0 <= index < Z.of_nat (length (chunks b)) ->
  chunks b !! Z.to_nat index = Some chunk ->
  broadcastChunk b index
  = [BroadcastChunk (chunkMessage (myEndpointId b) index chunk) index].
Proof.
  intros Hin Hchunk. unfold broadcastChunk.
  replace (index <? 0) with false by zbool.
  replace (index >=? Z.of_nat (length (chunks b))) with false by zbool.
  cbn [orb]. by rewrite Hchunk.
Qed.



(** *** Slicing the file *)

Lemma VIDEO_CHUNK_SIZE_val : VIDEO_CHUNK_SIZE = 65536.
Proof. reflexivity. Qed.

Lemma ceil_div_unique (a b q : Z) :
  0 < b -> b * (q - 1) < a <= b * q -> 0 < a -> ceil_div a b = q.
Proof.
  intros Hb Hq Ha. unfold ceil_div.
  rewrite Z.rem_mod_nonneg by lia.
  pose proof (Z.div_mod a b ltac:(lia)) as Hdm.
  pose proof (Z.mod_pos_bound a b Hb) as Hr.
  destruct (Z.eqb_spec (a mod b) 0); nia.
Qed.

(** The loop of [prepare()] from offset [i] on: the slices glued are the
    file from [i] on, there are [ceil((len - i) / VIDEO_CHUNK_SIZE)] of
    them, none empty and none longer than [VIDEO_CHUNK_SIZE]. *)
Lemma split_chunks_spec (data : bytes) (fuel : nat) :
  forall i : Z,
    0 <= i -> Z.of_nat (length data) - i <= Z.of_nat fuel ->
    concat (split_chunks fuel data i) = drop (Z.to_nat i) data
    /\ Z.of_nat (length (split_chunks fuel data i))
       = (if i <? Z.of_nat (length data)
          then ceil_div (Z.of_nat (length data) - i) VIDEO_CHUNK_SIZE else 0)
    /\ Forall (fun c => 0 < Z.of_nat (length c) <= VIDEO_CHUNK_SIZE)
              (split_chunks fuel data i).
Proof.
  induction fuel as [|fuel IH]; intros i Hi Hfuel.
  - cbn [split_chunks concat length]. replace (i <? Z.of_nat (length data)) with false by zbool.
    split_and!; [|done|by apply Forall_nil_2].
    symmetry. apply drop_ge. lia.
  - cbn [split_chunks]. rewrite VIDEO_CHUNK_SIZE_val in *.
    destruct (Z.ltb_spec i (Z.of_nat (length data))) as [Hlt|Hge].
    2:{ cbn [concat length]. split_and!; [|done|by apply Forall_nil_2].
        symmetry. apply drop_ge. lia. }
    destruct (IH (i + 65536)) as (IHc & IHn & IHs); [lia | lia |].
    cbn [concat length]. rewrite IHc. unfold slice.
    set (rest := drop (Z.to_nat i) data).
    assert (Hrest : length rest = (length data - Z.to_nat i)%nat) by apply length_drop.
    destruct (Z.le_gt_cases (i + 65536) (Z.of_nat (length data))) as [Hfull|Hlast].
    + rewrite Z.min_l by lia.
      replace (Z.to_nat (i + 65536 - i)) with (Z.to_nat 65536) by lia.
      replace (Z.to_nat (i + 65536)) with (Z.to_nat i + Z.to_nat 65536)%nat by lia.
      rewrite <- drop_drop. fold rest. rewrite take_drop. split_and!; [done| |].
      * rewrite Nat2Z.inj_succ, IHn.
        destruct (Z.ltb_spec (i + 65536) (Z.of_nat (length data))) as [Hmore|Hend].
        -- pose proof (StreamChannelFacts.ceil_div_bounds (Z.of_nat (length data) - (i + 65536)) 65536
                         ltac:(lia) ltac:(lia)) as Hb.
           symmetry. apply ceil_div_unique; lia.
        -- symmetry. apply ceil_div_unique; lia.
      * apply Forall_cons_2; [|done]. rewrite length_take. lia.
    + rewrite Z.min_r by lia.
      rewrite (drop_ge data (Z.to_nat (i + 65536))) by lia. rewrite app_nil_r.
      rewrite take_ge by lia. split_and!; [done| |].
      * rewrite Nat2Z.inj_succ, IHn.
        replace (i + 65536 <? Z.of_nat (length data)) with false by zbool.
        symmetry. apply ceil_div_unique; lia.
      * apply Forall_cons_2; [|done]. lia.
Qed.

(** X7: [prepare()] cuts the file without loss: the chunks glued in
    order are the file's bytes, no chunk is empty or longer than
    [VIDEO_CHUNK_SIZE] (64 KiB), and their number is
    [ceil(file.size / VIDEO_CHUNK_SIZE)], the value the constructor had
    already put in [metadata.totalChunks]; so [totalChunks] in the
    metadata is the same before and after [prepare()]. *)
Theorem prepare_slices_file (video : File) (me : string) :
  let b := prepare (constructor video me) in
  concat (chunks b) = file_data video
  /\ Forall (fun c => 0 < Z.of_nat (length c) <= VIDEO_CHUNK_SIZE) (chunks b)
  /\ Z.of_nat (length (chunks b)) = ceil_div (file_size video) VIDEO_CHUNK_SIZE
  /\ metadata b = metadata (constructor video me).
Proof.
  cbv zeta. unfold prepare. cbn [chunks metadata file constructor].
  destruct (split_chunks_spec (file_data video) (length (file_data video)) 0)
    as (Hc & Hn & Hs); [lia | lia |].
  assert (Hcount : Z.of_nat (length (split_chunks (length (file_data video))
                                                  (file_data video) 0))
                   = ceil_div (file_size video) VIDEO_CHUNK_SIZE).
  { rewrite Hn. unfold file_size.
    destruct (Z.ltb_spec 0 (Z.of_nat (length (file_data video)))) as [Hpos|Hzero].
    - by rewrite Z.sub_0_r.
    - replace (Z.of_nat (length (file_data video))) with 0 by lia. reflexivity. }
  split_and!; [done | done | done |].
  cbn [fileName fileSize mimeType duration]. by rewrite Hcount.
Qed.

(** *** The broadcast pass *)

Lemma chunk_sends_app (e1 e2 : list Effect) :
  chunk_sends (e1 ++ e2) = chunk_sends e1 ++ chunk_sends e2.
Proof. unfold chunk_sends. apply omap_app. Qed.

(** One firing of the timer while streaming, with chunk [k] next. *)
Lemma broadcastNext_sends (ms : Z) (b : Broadcaster) (k : nat) (chunk : bytes) :
  isStreaming b = true ->
  currentChunkIndex b = Z.of_nat k ->
  chunks b !! k = Some chunk ->
  exists other,
    broadcastNext ms b
    = (mkBroadcaster (file b) (chunks b) (metadata b) (myEndpointId b)
         true (Z.of_nat (S k)) (onProgress b) (onPeerRequest b),
       BroadcastChunk (chunkMessage (myEndpointId b) (Z.of_nat k) chunk) (Z.of_nat k)
         :: other)
    /\ chunk_sends other = [] /\ SetTimeout ms ∈ other.
Proof.
  intros Hrun Hk Hchunk. unfold broadcastNext. rewrite Hrun, Hk. cbn [negb].
  pose proof (lookup_lt_Some _ _ _ Hchunk) as Hlt.
  replace (Z.of_nat k <? Z.of_nat (length (chunks b))) with true by zbool.
  rewrite (broadcastChunk_in_range b (Z.of_nat k) chunk);
    [| lia | by rewrite Nat2Z.id].
  eexists. split.
  - cbn [app]. repeat f_equal. lia.
  - split; [by destruct (onProgress b)|].
    apply elem_of_app. right. by apply list_elem_of_singleton.
Qed.

Lemma broadcastNext_done (ms : Z) (b : Broadcaster) :
  Z.of_nat (length (chunks b)) <= currentChunkIndex b ->
  broadcastNext ms b = (b, []).
Proof.
  intros Hk. unfold broadcastNext. destruct (isStreaming b); [|done]. cbn [negb].
  by replace (currentChunkIndex b <? Z.of_nat (length (chunks b))) with false by zbool.
Qed.

Lemma ticks_from (ms : Z) (n : nat) :
  forall (b : Broadcaster) (k : nat),
    isStreaming b = true ->
    currentChunkIndex b = Z.of_nat k ->
    let after := ticks n ms b in
    chunk_sends after.2
    = imap (fun j c => chunk_send b (k + j) c) (take n (drop k (chunks b)))
    /\ chunks after.1 = chunks b
    /\ isStreaming after.1 = true
    /\ currentChunkIndex after.1 = Z.of_nat (k + length (take n (drop k (chunks b)))).
Proof.
  induction n as [|n IH]; intros b k Hrun Hk.
  - cbn. rewrite Nat.add_0_r. done.
  - cbn [ticks].
    destruct (chunks b !! k) as [chunk|] eqn:Hchunk.
    + destruct (broadcastNext_sends ms b k chunk Hrun Hk Hchunk)
        as (other & -> & Hother & _).
      set (b' := mkBroadcaster _ _ _ _ _ _ _ _).
      destruct (IH b' (S k)) as (IHs & IHc & IHr & IHk); [done | done |].
      destruct (ticks n ms b') as [b'' sent']. cbn [fst snd] in *.
      rewrite (drop_S _ _ _ Hchunk). cbn [take imap length].
      change (chunks b') with (chunks b) in *.
      split_and!; [| done | done | rewrite IHk; f_equal; lia].
      rewrite <- app_comm_cons.
      change (BroadcastChunk ?m ?s :: ?l) with ([BroadcastChunk m s] ++ l).
      rewrite !chunk_sends_app, Hother, IHs.
      unfold chunk_send at 2. rewrite Nat.add_0_r. cbn [app]. f_equal.
      apply imap_ext. intros j c _. unfold chunk_send. cbn [myEndpointId].
      unfold compose. by replace (k + S j)%nat with (S k + j)%nat by lia.
    + apply lookup_ge_None in Hchunk.
      rewrite broadcastNext_done by lia.
      destruct (IH b k Hrun Hk) as (IHs & IHc & IHr & IHk).
      destruct (ticks n ms b) as [b'' sent']. cbn [fst snd app] in *.
      rewrite drop_ge in * by lia. rewrite take_nil in *. done.
Qed.

(** X8: [startBroadcast] on a broadcaster that is not streaming first
    sends the metadata and then, one chunk per firing of its timer, the
    chunks it holds (after [prepare()] if it held none), each exactly
    once and in index order, each tagged with its index as frame
    number; once the last chunk is out, a further firing sends nothing
    and sets no timer. *)
Theorem broadcast_pass_in_order (b : Broadcaster) (chunkIntervalMs : Z) (n : nat) :
  isStreaming b = false ->
  let started := startBroadcast chunkIntervalMs b in
  let later := ticks n chunkIntervalMs started.1 in
  let held := chunks started.1 in
  held = (if (length (chunks b) =? 0)%nat then chunks (prepare b) else chunks b)
  /\ head started.2
     = Some (BroadcastSignal (metadataMessage (myEndpointId b) (metadata started.1)))
  /\ chunk_sends (started.2 ++ later.2) = imap (chunk_send b) (take (S n) held)
  /\ ((length held <= S n)%nat ->
      broadcastNext chunkIntervalMs later.1 = (later.1, [])).
Proof.
  intros Hidle. cbv zeta. unfold startBroadcast. rewrite Hidle.
  set (b1 := if (length (chunks b) =? 0)%nat then prepare b else b).
  assert (Hme : myEndpointId b1 = myEndpointId b) by (unfold b1; by destruct (_ =? _)%nat).
  assert (Hheld : chunks b1
                  = if (length (chunks b) =? 0)%nat then chunks (prepare b) else chunks b)
    by (unfold b1; by destruct (_ =? _)%nat).
  set (b2 := mkBroadcaster _ _ _ _ true 0 _ _).
  pose proof (ticks_from chunkIntervalMs (S n) b2 0 eq_refl eq_refl) as Hpass.
  cbv zeta in Hpass. cbn [ticks] in Hpass.
  destruct (broadcastNext chunkIntervalMs b2) as [b3 sent] eqn:Hfirst.
  destruct (ticks n chunkIntervalMs b3) as [b4 sent'] eqn:Hrest.
  cbn [fst snd] in *. destruct Hpass as (Hs & Hc & Hr & Hk).
  change (chunks b2) with (chunks b1) in *. rewrite drop_0 in *.
  assert (Hc3 : chunks b3 = chunks b1 /\ metadata b3 = metadata b1).
  { unfold broadcastNext in Hfirst. cbn [isStreaming negb] in Hfirst.
    destruct (_ <? _) in Hfirst; injection Hfirst as <- _; done. }
  destruct Hc3 as [Hc3 Hm3]. rewrite Hc3, Hm3, <- Hheld.
  split_and!.
  - done.
  - cbn. by rewrite Hme.
  - unfold broadcastMetadata. cbn [app].
    change (BroadcastSignal ?m :: ?l) with ([BroadcastSignal m] ++ l).
    rewrite chunk_sends_app. change (chunk_sends [BroadcastSignal _]) with (@nil (Z * VideoStreamMessage)).
    cbn [app]. rewrite Hrest. cbn [snd]. rewrite Hs.
    apply imap_ext. intros j c _. unfold chunk_send, b2. cbn [myEndpointId].
    by rewrite Hme.
  - intros Hall. rewrite Hrest. cbn [fst]. apply broadcastNext_done. rewrite Hc, Hk.
    rewrite take_ge by lia. lia.
Qed.

Lemma broadcast_pass_in_order_witness :
  let b := prepare (constructor sample_file "broadcaster") in
  let started := startBroadcast 50 b in
  let later := ticks 3 50 started.1 in
  let held := chunks started.1 in
  held = (if (length (chunks b) =? 0)%nat then chunks (prepare b) else chunks b)
  /\ head started.2
     = Some (BroadcastSignal (metadataMessage (myEndpointId b) (metadata started.1)))
  /\ chunk_sends (started.2 ++ later.2) = imap (chunk_send b) (take 4 held)
  /\ ((length held <= 4)%nat -> broadcastNext 50 later.1 = (later.1, [])).
Proof.
  intros b. apply (broadcast_pass_in_order b 50 3). reflexivity.
Defined.

(** *** What a pass puts on the channel *)

Lemma delivered_app (e1 e2 : list Effect) :
  delivered (e1 ++ e2) = delivered e1 ++ delivered e2.
Proof. unfold delivered. apply omap_app. Qed.

Lemma broadcastNext_delivered (ms : Z) (b : Broadcaster) (k : nat) (chunk : bytes) :
  isStreaming b = true ->
  currentChunkIndex b = Z.of_nat k ->
  chunks b !! k = Some chunk ->
  broadcastNext ms b
  = (mkBroadcaster (file b) (chunks b) (metadata b) (myEndpointId b)
       true (Z.of_nat (S k)) (onProgress b) (onPeerRequest b),
     (broadcastNext ms b).2)
  /\ delivered (broadcastNext ms b).2 = [chunkMessage (myEndpointId b) (Z.of_nat k) chunk].
Proof.
  intros Hrun Hk Hchunk.
  destruct (broadcastNext_sends ms b k chunk Hrun Hk Hchunk) as (other & Hnext & _).
  split; [by rewrite Hnext|].
  unfold broadcastNext. rewrite Hrun, Hk. cbn [negb].
  pose proof (lookup_lt_Some _ _ _ Hchunk) as Hlt.
  replace (Z.of_nat k <? Z.of_nat (length (chunks b))) with true by zbool.
  rewrite (broadcastChunk_in_range b (Z.of_nat k) chunk);
    [| lia | by rewrite Nat2Z.id].
  cbn [snd]. rewrite !delivered_app. by destruct (onProgress b).
Qed.

Lemma ticks_delivered (ms : Z) (n : nat) :
  forall (b : Broadcaster) (k : nat),
    isStreaming b = true ->
    currentChunkIndex b = Z.of_nat k ->
    delivered (ticks n ms b).2
    = imap (fun j c => chunkMessage (myEndpointId b) (Z.of_nat (k + j)) c)
           (take n (drop k (chunks b))).
Proof.
  induction n as [|n IH]; intros b k Hrun Hk.
  - done.
  - cbn [ticks].
    destruct (chunks b !! k) as [chunk|] eqn:Hchunk.
    + destruct (broadcastNext_delivered ms b k chunk Hrun Hk Hchunk) as (Hnext & Hsent).
      destruct (broadcastNext ms b) as [b' sent]. cbn [snd] in *.
      injection Hnext as ->.
      set (b' := mkBroadcaster _ _ _ _ _ _ _ _).
      specialize (IH b' (S k) eq_refl eq_refl).
      destruct (ticks n ms b') as [b'' sent']. cbn [snd] in *.
      rewrite delivered_app, Hsent, IH, (drop_S _ _ _ Hchunk).
      cbn [take imap app]. rewrite Nat.add_0_r. f_equal.
      apply imap_ext. intros j c _. unfold compose. cbn [myEndpointId b'].
      by replace (k + S j)%nat with (S k + j)%nat by lia.
    + apply lookup_ge_None in Hchunk.
      rewrite broadcastNext_done by lia.
      specialize (IH b k Hrun Hk).
      destruct (ticks n ms b) as [b'' sent']. cbn [snd app] in *.
      rewrite IH. rewrite !drop_ge by lia. by rewrite !take_nil.
Qed.

(** Everything a pass puts on the channel: the metadata, then the
    chunks held in index order. *)
Lemma pass_delivered (video : File) (me : string) (ms : Z) (n : nat) :
  let b := prepare (constructor video me) in
  let started := startBroadcast ms (constructor video me) in
  let later := ticks n ms started.1 in
  delivered (started.2 ++ later.2)
  = metadataMessage me (metadata b)
      :: imap (fun j c => chunkMessage me (Z.of_nat j) c) (take (S n) (chunks b)).
Proof.
  cbv zeta. unfold startBroadcast.
  cbn [isStreaming constructor chunks length Nat.eqb].
  set (b := prepare (constructor video me)).
  set (b2 := mkBroadcaster _ _ _ _ true 0 _ _).
  pose proof (ticks_delivered ms (S n) b2 0 eq_refl eq_refl) as Hpass.
  cbn [ticks] in Hpass.
  destruct (broadcastNext ms b2) as [b3 sent]. cbn [fst snd] in *.
  destruct (ticks n ms b3) as [b4 sent']. cbn [fst snd] in *.
  unfold broadcastMetadata. rewrite drop_0 in Hpass.
  change ([BroadcastSignal ?m] ++ ?l) with ([BroadcastSignal m] ++ l).
  rewrite <- app_assoc, delivered_app, Hpass. done.
Qed.

End VideoFileBroadcasterFacts.

(** ** File-chunk exchange: the viewer *)

Module VideoFileViewerFacts.

Import VideoStreaming VideoFileViewer.

Lemma same_store_refl (v : Viewer) : same_store v v.
Proof. by unfold same_store. Qed.

Lemma same_store_trans (v1 v2 v3 : Viewer) :
  same_store v1 v2 -> same_store v2 v3 -> same_store v1 v3.
Proof.
  intros (? & ? & ? & ?) (? & ? & ? & ?). unfold same_store.
  split_and!; congruence.
Qed.

Lemma same_store_set_video (v : Viewer) (el : option VideoElement) (last : Z) :
  same_store v (set_video v el last).
Proof. by unfold same_store. Qed.

Lemma assembleAndPlay_keeps (v : Viewer) (n : Z) :
  same_store v (assembleAndPlay v n).1.
Proof.
  unfold assembleAndPlay.
  destruct (metadata v) as [md|]; [|apply same_store_refl].
  destruct (videoElement v) as [el|]; [|apply same_store_refl].
  destruct (ordered_chunks _ _ _); [apply same_store_refl|].
  apply same_store_set_video.
Qed.

Lemma tryProgressivePlay_keeps (v : Viewer) :
  same_store v (tryProgressivePlay v).1.
Proof.
  unfold tryProgressivePlay.
  destruct (metadata v) as [md|]; [|apply same_store_refl].
  destruct (videoElement v) as [el|]; [|apply same_store_refl].
  cbv zeta.
  repeat case_match;
    try (eapply same_store_trans;
         [apply same_store_set_video | apply assembleAndPlay_keeps]).
  apply same_store_set_video.
Qed.

(** A chunk whose index is not yet in [receivedChunks] is stored and
    counted, whatever the index. *)
Lemma handleChunk_stores (v : Viewer) (m : VideoStreamMessage)
    (index : Z) (data : bytes) :
  msg_chunkIndex m = Some index ->
  msg_chunkData m = Some data ->
  index ∉ receivedChunks v ->
  let v' := (handleChunk v m).1 in
  chunks v' !! index = Some data
  /\ receivedChunks v' = {[index]} ∪ receivedChunks v
  /\ size (receivedChunks v') = S (size (receivedChunks v)).
Proof.
  intros Hi Hd Hnew. unfold handleChunk. rewrite Hi, Hd.
  rewrite bool_decide_eq_false_2 by done. cbv zeta.
  set (v1 := mkViewer _ _ _ _ _ _ _ _ _ _ _).
  assert (Hgoal : forall v2 : Viewer,
            chunks v2 = chunks v1 -> receivedChunks v2 = receivedChunks v1 ->
            chunks v2 !! index = Some data
            /\ receivedChunks v2 = {[index]} ∪ receivedChunks v
            /\ size (receivedChunks v2) = S (size (receivedChunks v))).
  { intros v2 -> ->. cbn. rewrite lookup_insert_eq.
    split_and!; [done..|].
    rewrite size_union by set_solver. by rewrite size_singleton. }
  destruct (metadata v1) as [md|].
  - pose proof (tryProgressivePlay_keeps v1) as (Hc & Hr & _).
    destruct (tryProgressivePlay v1) as [v2 e]. by apply Hgoal.
  - by apply Hgoal.
Qed.

(** The viewer after the sample sequence: metadata for two chunks, and
    chunks 5 and 7 stored. *)
Lemma after_stray_chunks :
  handleAll (constructor "viewer") stray_chunks
  = mkViewer "viewer"
      (Some (mkMeta "clip.webm" 131072 "video/webm" 2 None))
      (<[7 := ["002"%byte]]> (<[5 := ["001"%byte]]> ∅))
      ({[7]} ∪ ({[5]} ∪ ∅)) ((∅ ∖ {[5]}) ∖ {[7]})
      None (-1) false false false ∅.
Proof. vm_compute. reflexivity. Qed.

(** C10: [handleChunk] stores and counts a chunk for any index that is
    not yet in [receivedChunks], without comparing it with the
    metadata's [totalChunks].  So there is a message sequence with
    out-of-range chunk indices after which [getProgress()] reports
    [received = total] and 100 percent although no chunk with an index
    in [0 .. totalChunks - 1] was ever received. *)
Theorem out_of_range_chunks_fill_progress :
  (forall (v : Viewer) (m : VideoStreamMessage) (index : Z) (data : bytes),
      msg_chunkIndex m = Some index ->
      msg_chunkData m = Some data ->
      index ∉ receivedChunks v ->
      let v' := (handleChunk v m).1 in
      chunks v' !! index = Some data
      /\ receivedChunks v' = {[index]} ∪ receivedChunks v
      /\ size (receivedChunks v') = S (size (receivedChunks v)))
  /\ exists (msgs : list VideoStreamMessage) (n : Z),
       let v := handleAll (constructor "viewer") msgs in
       (totalChunks <$> metadata v) = Some n
       /\ Forall (fun m => msg_type m = VideoChunk ->
                           exists i, msg_chunkIndex m = Some i /\ n <= i) msgs
       /\ received (getProgress v) = n
       /\ total (getProgress v) = n
       /\ percent (getProgress v) = Qc_of_Z 100
       /\ forall i, 0 <= i < n -> (i ∉ receivedChunks v) /\ chunks v !! i = None.
Proof.
  split; [apply handleChunk_stores|].
  exists stray_chunks, 2. cbv zeta. rewrite after_stray_chunks.
  split_and!.
  - reflexivity.
  - repeat apply Forall_cons_2; [..| apply Forall_nil_2]; cbn [msg_type chunkMessage].
    + discriminate.
    + intros _. exists 5. by split.
    + intros _. exists 7. by split.
  - vm_compute. reflexivity.
  - reflexivity.
  - apply Qc_is_canon. vm_compute. reflexivity.
  - intros i Hi. cbn [receivedChunks chunks]. split.
    + rewrite !elem_of_union, !elem_of_singleton, elem_of_empty. lia.
    + rewrite !lookup_insert_ne by lia. apply lookup_empty.
Qed.

(** *** Asking for chunks *)

Lemma seqZ_to_nat (n : Z) : seqZ 0 (Z.of_nat (Z.to_nat n)) = seqZ 0 n.
Proof.
  destruct (Z.le_gt_cases 0 n) as [Hn|Hn]; [by rewrite Z2Nat.id|].
  rewrite !seqZ_nil by lia. done.
Qed.

(** The loop asks, in increasing order, for the indices that are neither
    received nor asked for, until it has asked for five. *)
Lemma request_loop_spec (received pending0 : gset Z) (n : nat) :
  forall (i : Z) (requested : nat) (pending : gset Z),
    (forall j, i <= j -> j ∈ pending <-> j ∈ pending0) ->
    let res := request_loop received pending i n requested in
    res.1 = take (5 - requested)
              (filter (fun j => (j ∉ received) /\ (j ∉ pending0)) (seqZ i (Z.of_nat n)))
    /\ res.2 = pending ∪ list_to_set res.1.
Proof.
  induction n as [|n IH]; intros i requested pending Hsame.
  - cbn. rewrite seqZ_nil by lia. rewrite filter_nil, take_nil. split; [done | set_solver].
  - cbn [request_loop]. rewrite (seqZ_cons i) by lia.
    replace (Z.pred (Z.of_nat (S n))) with (Z.of_nat n) by lia.
    replace (Z.succ i) with (i + 1) by lia.
    destruct (Nat.ltb_spec requested 5) as [Hroom|Hfull].
    2:{ replace (5 - requested)%nat with 0%nat by lia. cbn. split; [done | set_solver]. }
    destruct (decide ((i ∉ received) /\ (i ∉ pending0))) as [[Hr Hp]|Hno].
    + rewrite filter_cons_True by done.
      rewrite !bool_decide_eq_true_2; [|by rewrite Hsame | done]. cbn [andb].
      destruct (IH (i + 1) (S requested) ({[i]} ∪ pending)) as [IHl IHp].
      { intros j Hj. rewrite elem_of_union, elem_of_singleton, Hsame by lia.
        split; [intros [?|?]; [lia|done] | by right]. }
      destruct (request_loop _ _ _ _ _) as [asked pending']. cbn [fst snd] in *.
      replace (5 - requested)%nat with (S (5 - S requested)) by lia.
      cbn [take]. rewrite IHl. split; [done|]. rewrite IHp, <- IHl. set_solver.
    + rewrite filter_cons_False by done.
      assert (Hcond : bool_decide (i ∉ received) && bool_decide (i ∉ pending) = false).
      { apply andb_false_iff.
        destruct (decide (i ∉ received)) as [Hr|Hr];
          [right | left; by apply bool_decide_eq_false_2].
        apply bool_decide_eq_false_2. rewrite Hsame by lia. tauto. }
      rewrite Hcond. apply IH. intros j Hj. apply Hsame. lia.
Qed.

Lemma requests_asked (v : Viewer) (asked : list Z) (rest : list Effect) :
  requests rest = [] ->
  requests ((requestChunkFromPeers v <$> asked) ++ rest) = asked.
Proof.
  intros Hrest. unfold requests in *. rewrite omap_app, Hrest, app_nil_r.
  induction asked as [|i asked IH]; [done|].
  rewrite fmap_cons. cbn. by rewrite IH.
Qed.

(** What one firing of the timer of [requestBatch] asks for and leaves
    behind. *)
Lemma requestBatch_spec (v : Viewer) (md : VideoMetadata) :
  metadata v = Some md ->
  let after := requestBatch v in
  let asked := take 5 (wanted v (totalChunks md)) in
  requests after.2 = asked
  /\ same_store v after.1
  /\ videoElement after.1 = videoElement v
  /\ pendingRequests after.1
     = (if Z.of_nat (size (receivedChunks v)) >=? totalChunks md
        then pendingRequests v ∪ list_to_set asked
        else if (0 <? size (pendingRequests v ∪ list_to_set asked))%nat
                && (length asked =? 0)%nat
             then ∅ else pendingRequests v ∪ list_to_set asked)
  /\ (SetTimeout 500 ∈ after.2
      <-> ¬ (totalChunks md <= Z.of_nat (size (receivedChunks v)))).
Proof.
  intros Hmd. cbv zeta. unfold requestBatch. rewrite Hmd.
  destruct (request_loop_spec (receivedChunks v) (pendingRequests v)
              (Z.to_nat (totalChunks md)) 0 0 (pendingRequests v)) as [Hl Hp]; [done|].
  rewrite seqZ_to_nat in Hl. fold (wanted v (totalChunks md)) in Hl.
  change (5 - 0)%nat with 5%nat in Hl.
  destruct (request_loop _ _ _ _ _) as [asked pending]. cbn [fst snd] in *.
  subst asked pending.
  destruct (Z.geb_spec (Z.of_nat (size (receivedChunks v))) (totalChunks md)) as [Hdone|Hmore];
    cbn [fst snd].
  - rewrite <- (app_nil_r (_ <$> _)), requests_asked by done.
    split_and!; [done | done | done | done |].
    split; [|lia]. rewrite app_nil_r. intros Hin.
    apply list_elem_of_fmap in Hin as (i & Hi & _). discriminate Hi.
  - rewrite requests_asked by done.
    split_and!; [done | done | done | done |].
    split; [lia|]. intros _. apply elem_of_app. right. by apply list_elem_of_singleton.
Qed.

(** X9: each time its timer fires, [requestBatch] asks for the lowest
    indices below [totalChunks] that are neither received nor already
    asked for, at most five of them and in increasing order; so it never
    asks for a chunk it holds, for one it is waiting for, or for an index
    outside the file.  The stored chunks and the metadata are not
    touched. *)
Theorem requestBatch_asks_lowest_missing (v : Viewer) (md : VideoMetadata) :
  metadata v = Some md ->
  let after := requestBatch v in
  requests after.2 = take 5 (wanted v (totalChunks md))
  /\ (length (requests after.2) <= 5)%nat
  /\ Forall (fun i => 0 <= i < totalChunks md
                      /\ (i ∉ receivedChunks v) /\ (i ∉ pendingRequests v))
            (requests after.2)
  /\ same_store v after.1.
Proof.
  intros Hmd. destruct (requestBatch_spec v md Hmd) as (Hreq & Hsame & _).
  cbv zeta in *. rewrite Hreq. split_and!; [done | | | done].
  - rewrite length_take. lia.
  - apply list.Forall_forall. intros i Hi.
    apply elem_of_take in Hi as (k & Hi & _).
    apply list_elem_of_lookup_2 in Hi. unfold wanted in Hi.
    apply list_elem_of_filter in Hi as [[Hr Hp] Hrange].
    apply elem_of_seqZ in Hrange. split_and!; [lia.. | done | done].
Qed.

Lemma requestBatch_asks_lowest_missing_witness :
  let v := handleAll (constructor "viewer") stray_chunks in
  let after := requestBatch v in
  requests after.2 = take 5 (wanted v 2)
  /\ (length (requests after.2) <= 5)%nat
  /\ Forall (fun i => 0 <= i < 2 /\ (i ∉ receivedChunks v) /\ (i ∉ pendingRequests v))
            (requests after.2)
  /\ same_store v after.1.
Proof.
  intros v.
  apply (requestBatch_asks_lowest_missing v (mkMeta "clip.webm" 131072 "video/webm" 2 None)).
  unfold v. by rewrite after_stray_chunks.
Defined.

(** *** The bookkeeping of the viewer *)

Lemma assembleAndPlay_pending (v : Viewer) (n : Z) :
  pendingRequests (assembleAndPlay v n).1 = pendingRequests v.
Proof.
  unfold assembleAndPlay.
  destruct (metadata v) as [md|]; [|done].
  destruct (videoElement v) as [el|]; [|done].
  by destruct (ordered_chunks _ _ _).
Qed.

Lemma tryProgressivePlay_pending (v : Viewer) :
  pendingRequests (tryProgressivePlay v).1 = pendingRequests v.
Proof.
  unfold tryProgressivePlay.
  destruct (metadata v) as [md|]; [|done].
  destruct (videoElement v) as [el|]; [|done].
  cbv zeta. repeat case_match; by rewrite ?assembleAndPlay_pending.
Qed.

(** What [handleChunk] leaves behind for a chunk it does not hold yet. *)
Lemma handleChunk_new (v : Viewer) (m : VideoStreamMessage) (index : Z) (data : bytes) :
  msg_chunkIndex m = Some index ->
  msg_chunkData m = Some data ->
  index ∉ receivedChunks v ->
  let v' := (handleChunk v m).1 in
  chunks v' = <[index := data]> (chunks v)
  /\ receivedChunks v' = {[index]} ∪ receivedChunks v
  /\ pendingRequests v' = pendingRequests v ∖ {[index]}
  /\ metadata v' = metadata v
  /\ myEndpointId v' = myEndpointId v.
Proof.
  intros Hi Hd Hnew. unfold handleChunk. rewrite Hi, Hd.
  rewrite bool_decide_eq_false_2 by done. cbv zeta.
  set (v1 := mkViewer _ _ _ _ _ _ _ _ _ _ _).
  destruct (metadata v1) as [md|] eqn:Hmd; [|done].
  pose proof (tryProgressivePlay_keeps v1) as (Hc & Hr & Hm & He).
  pose proof (tryProgressivePlay_pending v1) as Hp.
  destruct (tryProgressivePlay v1) as [v2 e]. cbn [fst] in *.
  rewrite Hc, Hr, Hp, Hm, He. done.
Qed.







Lemma handlePeerChunks_twice (v : Viewer) (m : VideoStreamMessage) :
  handlePeerChunks (handlePeerChunks v m) m = handlePeerChunks v m.
Proof.
  unfold handlePeerChunks. destruct (msg_availableChunks m) as [available|]; [|done].
  cbn [myEndpointId metadata chunks receivedChunks pendingRequests videoElement
       lastAppendedIndex onMetadata onProgress onReady peerChunks].
  rewrite lookup_insert_eq, insert_insert_eq. cbn [default].
  f_equal. f_equal. set_solver.
Qed.

(** X12: a message handled a second time right after the first changes
    nothing in the viewer; unless it is a chunk request (which is answered
    each time), it also causes no effect: no second progress callback, no
    second blob, no second announcement. *)
Theorem repeated_message_ignored (v : Viewer) (m : VideoStreamMessage) :
  let v' := (handleVideoMessage v m).1 in
  (handleVideoMessage v' m).1 = v'
  /\ (msg_type m <> VideoRequestChunk -> (handleVideoMessage v' m).2 = []).
Proof.
  cbv zeta. destruct (handleVideoMessage v m) as [v' e] eqn:Hfirst. cbn [fst].
  unfold handleVideoMessage in Hfirst.
  destruct (String.eqb (msg_from m) (myEndpointId v)) eqn:Hme.
  { injection Hfirst as <- <-. unfold handleVideoMessage. by rewrite Hme. }
  destruct (msg_type m) eqn:Hty.
  - unfold handleMetadata in Hfirst. destruct (metadata v) as [md|] eqn:Hmd.
    + injection Hfirst as <- <-.
      unfold handleVideoMessage, handleMetadata. by rewrite Hme, Hty, Hmd.
    + injection Hfirst as <- _.
      unfold handleVideoMessage. cbn [myEndpointId]. rewrite Hme, Hty.
      unfold handleMetadata. cbn [metadata]. done.
  - assert (Hsame : forall v0, myEndpointId v0 = myEndpointId v ->
              handleChunk v0 m = (v0, []) ->
              (handleVideoMessage v0 m).1 = v0
              /\ (VideoChunk <> VideoRequestChunk -> (handleVideoMessage v0 m).2 = [])).
    { intros v0 He Hv0. unfold handleVideoMessage. by rewrite He, Hme, Hty, Hv0. }
    destruct (msg_chunkIndex m) as [index|] eqn:Hi.
    2:{ assert (Hno : forall v0, handleChunk v0 m = (v0, []))
          by (intros v0; unfold handleChunk; by rewrite Hi).
        rewrite Hno in Hfirst. injection Hfirst as <- <-. by apply Hsame. }
    destruct (msg_chunkData m) as [data|] eqn:Hd.
    2:{ assert (Hno : forall v0, handleChunk v0 m = (v0, []))
          by (intros v0; unfold handleChunk; by rewrite Hi, Hd).
        rewrite Hno in Hfirst. injection Hfirst as <- <-. by apply Hsame. }
    assert (Hheld : forall v0, index ∈ receivedChunks v0 -> handleChunk v0 m = (v0, [])).
    { intros v0 Hin. unfold handleChunk. by rewrite Hi, Hd, bool_decide_eq_true_2. }
    destruct (decide (index ∈ receivedChunks v)) as [Hin|Hnew].
    { rewrite (Hheld v Hin) in Hfirst. injection Hfirst as <- <-.
      apply Hsame; [done | by apply Hheld]. }
    destruct (handleChunk_new v m index data Hi Hd Hnew) as (_ & Hr & _ & _ & He).
    rewrite Hfirst in Hr, He. cbn [fst] in Hr, He.
    apply Hsame; [done|]. apply Hheld. rewrite Hr. set_solver.
  - injection Hfirst as <- _. split; [|done].
    unfold handleVideoMessage. by rewrite Hme, Hty.
  - injection Hfirst as <- _. unfold handleVideoMessage.
    replace (myEndpointId (handlePeerChunks v m)) with (myEndpointId v)
      by (unfold handlePeerChunks; by destruct (msg_availableChunks m)).
    rewrite Hme, Hty. cbn [fst snd]. by rewrite handlePeerChunks_twice.
  - injection Hfirst as <- <-. unfold handleVideoMessage. by rewrite Hme, Hty.
Qed.

(** X13: requests that were never answered are asked again.  While the
    viewer holds fewer chunks than [totalChunks], every firing of the
    timer sets the next one; a firing that finds nothing left to ask for
    forgets all outstanding requests, and the firing after it asks again
    for the lowest missing indices, at most five of them. *)
Theorem stale_requests_asked_again (v : Viewer) (md : VideoMetadata) :
  metadata v = Some md ->
  Z.of_nat (size (receivedChunks v)) < totalChunks md ->
  wanted v (totalChunks md) = [] ->
  let first := requestBatch v in
  let second := requestBatch first.1 in
  requests first.2 = []
  /\ SetTimeout 500 ∈ first.2
  /\ pendingRequests first.1 = ∅
  /\ requests second.2
     = take 5 (filter (fun i => i ∉ receivedChunks v) (seqZ 0 (totalChunks md)))
  /\ requests second.2 <> [].
Proof.
  intros Hmd Hless Hnone. cbv zeta.
  destruct (requestBatch_spec v md Hmd) as (Hreq & (Hc & Hr & Hm & He) & _ & Hp & Ht).
  cbv zeta in *. rewrite Hnone in Hreq, Hp. cbn [take] in Hreq, Hp.
  assert (Hmissing : filter (fun i => i ∉ receivedChunks v) (seqZ 0 (totalChunks md)) <> []).
  { intros Hall.
    assert (Hsub : list_to_set (C := gset Z) (seqZ 0 (totalChunks md)) ⊆ receivedChunks v).
    { intros i Hi. apply elem_of_list_to_set in Hi.
      destruct (decide (i ∈ receivedChunks v)) as [|Hnot]; [done|].
      assert (Hin : i ∈ filter (fun i => i ∉ receivedChunks v) (seqZ 0 (totalChunks md)))
        by (by apply list_elem_of_filter).
      rewrite Hall in Hin. by apply elem_of_nil in Hin. }
    apply subseteq_size in Hsub.
    rewrite size_list_to_set in Hsub by apply NoDup_seqZ.
    rewrite length_seqZ in Hsub. lia. }
  assert (Hpending : pendingRequests v <> ∅).
  { intros Hempty. apply Hmissing. rewrite <- Hnone. unfold wanted.
    apply list_filter_iff. intros i. rewrite Hempty. set_solver. }
  assert (Hcleared : pendingRequests (requestBatch v).1 = ∅).
  { rewrite Hp. destruct (Z.geb_spec (Z.of_nat (size (receivedChunks v))) (totalChunks md));
      [lia|].
    cbn [length Nat.eqb andb]. rewrite andb_true_r.
    destruct (Nat.ltb_spec 0 (size (pendingRequests v ∪ list_to_set []))) as [|Hzero];
      [done|].
    exfalso. apply Hpending.
    assert (Hsize : size (pendingRequests v ∪ list_to_set []) = 0%nat) by lia.
    apply size_empty_inv in Hsize. set_solver. }
  rewrite <- Hm in Hmd.
  destruct (requestBatch_spec _ md Hmd) as (Hreq2 & _).
  cbv zeta in Hreq2.
  assert (Hwanted : wanted (requestBatch v).1 (totalChunks md)
                    = filter (fun i => i ∉ receivedChunks v) (seqZ 0 (totalChunks md))).
  { unfold wanted. apply list_filter_iff. intros i. rewrite Hcleared, Hr. set_solver. }
  rewrite Hwanted in Hreq2.
  split_and!; [done | apply Ht; lia | done | done |].
  rewrite Hreq2. destruct (filter _ _); [done | discriminate].
Qed.

Lemma stale_requests_asked_again_witness :
  let md := mkMeta "a.mp4" 150000 "video/mp4" 3 None in
  let v := (requestBatch
              (handleAll (constructor "viewer") [metadataMessage "broadcaster" md])).1 in
  let first := requestBatch v in
  let second := requestBatch first.1 in
  wanted v 3 = []
  /\ requests first.2 = []
  /\ SetTimeout 500 ∈ first.2
  /\ pendingRequests first.1 = ∅
  /\ requests second.2
     = take 5 (filter (fun i => i ∉ receivedChunks v) (seqZ 0 3))
  /\ requests second.2 <> [].
Proof.
  intros md v.
  assert (Hwanted : wanted v 3 = []) by (vm_compute; reflexivity).
  split; [exact Hwanted|].
  apply (stale_requests_asked_again v md).
  - vm_compute. reflexivity.
  - vm_compute. reflexivity.
  - exact Hwanted.
Defined.

(** *** Assembling the file *)

Lemma ordered_chunks_prefix (cs : list bytes) (held : gmap Z bytes) :
  (forall i c, held !! i = Some c -> 0 <= i /\ cs !! Z.to_nat i = Some c) ->
  forall (n : nat) (i : Z),
    0 <= i -> ordered_chunks held i n `prefix_of` drop (Z.to_nat i) cs.
Proof.
  intros Hfrom. induction n as [|n IH]; intros i Hi; cbn [ordered_chunks].
  - apply prefix_nil.
  - destruct (held !! i) as [c|] eqn:Hc; [|apply prefix_nil].
    destruct (Hfrom i c Hc) as [_ Hcs].
    rewrite (drop_S _ _ _ Hcs). apply prefix_cons.
    replace (S (Z.to_nat i)) with (Z.to_nat (i + 1)) by lia. apply IH. lia.
Qed.

Lemma ordered_chunks_full (cs : list bytes) (held : gmap Z bytes) :
  (forall j, 0 <= j < Z.of_nat (length cs) -> held !! j = cs !! Z.to_nat j) ->
  forall (n : nat) (i : Z),
    0 <= i -> i + Z.of_nat n <= Z.of_nat (length cs) ->
    ordered_chunks held i n = take n (drop (Z.to_nat i) cs).
Proof.
  intros Hall. induction n as [|n IH]; intros i Hi Hn; cbn [ordered_chunks].
  - done.
  - rewrite Hall by lia.
    destruct (lookup_lt_is_Some_2 cs (Z.to_nat i)) as [c Hc]; [lia|].
    rewrite Hc, (drop_S _ _ _ Hc). cbn [take]. f_equal.
    replace (S (Z.to_nat i)) with (Z.to_nat (i + 1)) by lia. apply IH; lia.
Qed.

Lemma count_sequential_full (held : gmap Z bytes) (total : Z) :
  (forall j, 0 <= j < total -> is_Some (held !! j)) ->
  forall (n : nat) (i : Z),
    0 <= i -> i + Z.of_nat n <= total ->
    count_sequential held i n = Z.of_nat n.
Proof.
  intros Hall. induction n as [|n IH]; intros i Hi Hn; cbn [count_sequential].
  - done.
  - destruct (Hall i) as [c Hc]; [lia|]. rewrite Hc, IH by lia. lia.
Qed.

Lemma blobs_app (e1 e2 : list Effect) : blobs (e1 ++ e2) = blobs e1 ++ blobs e2.
Proof. apply omap_app. Qed.

Lemma step_received (v : Viewer) (s : Step) :
  receivedChunks (step v s).1
  = receivedChunks v ∪ list_to_set (option_list (arrival (myEndpointId v) s))
  /\ myEndpointId (step v s).1 = myEndpointId v.
Proof.
  assert (Hsame : forall e : list Effect,
            receivedChunks (v, e).1 = receivedChunks v ∪ list_to_set (option_list None)
            /\ myEndpointId (v, e).1 = myEndpointId v).
  { intros e. cbn. split; [set_solver | done]. }
  destruct s as [m|]; cbn [step arrival].
  - unfold handleVideoMessage.
    destruct (String.eqb _ _); [apply Hsame|].
    destruct (msg_type m) eqn:Hty.
    + unfold handleMetadata. destruct (metadata v); [apply Hsame|].
      cbn. split; [set_solver | done].
    + destruct (msg_chunkData m) as [c|] eqn:Hd.
      2:{ unfold handleChunk. rewrite Hd. destruct (msg_chunkIndex m); apply Hsame. }
      destruct (msg_chunkIndex m) as [i|] eqn:Hi;
        [|unfold handleChunk; rewrite Hi; apply Hsame].
      destruct (decide (i ∈ receivedChunks v)) as [Hin|Hnew].
      { unfold handleChunk. rewrite Hi, Hd, bool_decide_eq_true_2 by done.
        cbn. split; [set_solver | done]. }
      destruct (handleChunk_new v m i c Hi Hd Hnew) as (_ & Hr & _ & _ & He).
      split; [|done]. rewrite Hr. cbn. set_solver.
    + apply Hsame.
    + unfold handlePeerChunks. destruct (msg_availableChunks m); [|apply Hsame].
      cbn. split; [set_solver | done].
    + apply Hsame.
  - unfold requestBatch. destruct (metadata v); [|apply Hsame].
    destruct (request_loop _ _ _ _ _) as [asked pending].
    destruct (_ >=? _); cbn; (split; [set_solver | done]).
Qed.

Lemma run_received (steps : list Step) :
  forall v : Viewer,
    receivedChunks (run v steps).1 = receivedChunks v ∪ arrivals (myEndpointId v) steps
    /\ myEndpointId (run v steps).1 = myEndpointId v.
Proof.
  induction steps as [|s steps IH]; intros v.
  - cbn. split; [set_solver | done].
  - cbn [run]. destruct (step_received v s) as [Hr1 He1].
    destruct (step v s) as [v1 e1]. cbn [fst] in *.
    destruct (IH v1) as [Hr2 He2].
    destruct (run v1 steps) as [v2 e2]. cbn [fst] in *.
    split; [|congruence]. rewrite Hr2, Hr1, He1. unfold arrivals. cbn [omap list_omap].
    destruct (arrival (myEndpointId v) s) as [i|]; cbn [option_list];
      rewrite ?list_to_set_cons, ?list_to_set_nil; set_solver.
Qed.

Section Assembly.

Variables (cs : list bytes) (md : VideoMetadata).
Hypothesis Hcs : cs <> [].

(** With consistent bookkeeping and only chunks of the file stored, the
    viewer holds at least [totalChunks] chunks exactly when it holds all
    of them. *)
Lemma complete_iff (v : Viewer) :
  dom (chunks v) = receivedChunks v ->
  from_file cs v ->
  complete v (length cs) <-> (length cs <= size (receivedChunks v))%nat.
Proof.
  intros Hdom Hfrom.
  assert (Hsize : size (list_to_set (C := gset Z) (seqZ 0 (Z.of_nat (length cs))))
                  = length cs).
  { rewrite size_list_to_set by apply NoDup_seqZ. rewrite length_seqZ. lia. }
  assert (Hsub : receivedChunks v ⊆ list_to_set (seqZ 0 (Z.of_nat (length cs)))).
  { intros i Hi. rewrite <- Hdom in Hi. apply elem_of_dom in Hi as [c Hc].
    apply Hfrom in Hc as [H0 Hc]. apply lookup_lt_Some in Hc.
    apply elem_of_list_to_set, elem_of_seqZ. lia. }
  split.
  - intros Hall. rewrite <- Hsize. apply subseteq_size.
    intros i Hi. apply elem_of_list_to_set, elem_of_seqZ in Hi. apply Hall. lia.
  - intros Hmany i Hi.
    rewrite (set_subseteq_size_eq _ _ Hsub) by (rewrite Hsize; done).
    apply elem_of_list_to_set, elem_of_seqZ. lia.
Qed.

Lemma complete_held (v : Viewer) :
  dom (chunks v) = receivedChunks v ->
  from_file cs v ->
  complete v (length cs) ->
  forall j, 0 <= j < Z.of_nat (length cs) -> chunks v !! j = cs !! Z.to_nat j.
Proof.
  intros Hdom Hfrom Hall j Hj. specialize (Hall j Hj).
  rewrite <- Hdom in Hall. apply elem_of_dom in Hall as [c Hc].
  rewrite Hc. symmetry. by apply Hfrom.
Qed.

Lemma assembleAndPlay_blobs (v : Viewer) (k : Z) :
  from_file cs v ->
  is_Some (videoElement v) ->
  is_Some (videoElement (assembleAndPlay v k).1)
  /\ Forall (leading_chunks cs) (blobs (assembleAndPlay v k).2).
Proof.
  intros Hfrom Hel.
  assert (Hsame : is_Some (videoElement (v, @nil Effect).1)
                  /\ Forall (leading_chunks cs) (blobs (v, @nil Effect).2)).
  { split; [done | apply Forall_nil_2]. }
  unfold assembleAndPlay.
  destruct (metadata v) as [md'|]; [|done].
  destruct (videoElement v) as [el|]; [|done].
  cbv zeta.
  pose proof (ordered_chunks_prefix cs (chunks v) Hfrom
                (Z.to_nat (num_or (Some k) (totalChunks md'))) 0 ltac:(lia)) as Hpre.
  change (Z.to_nat 0) with 0%nat in Hpre. rewrite drop_0 in Hpre.
  destruct (ordered_chunks _ _ _) as [|c rest]; [done|].
  cbn. split; [done|]. apply Forall_cons_2; [|apply Forall_nil_2]. by split.
Qed.

Lemma assembleAndPlay_whole (v : Viewer) :
  metadata v = Some md ->
  is_Some (videoElement v) ->
  (forall j, 0 <= j < Z.of_nat (length cs) -> chunks v !! j = cs !! Z.to_nat j) ->
  blobs (assembleAndPlay v (Z.of_nat (length cs))).2 = [cs].
Proof.
  intros Hmd [el Hel] Hall. unfold assembleAndPlay. rewrite Hmd, Hel. cbv zeta.
  assert (Hlen : length cs <> 0%nat) by (by destruct cs).
  unfold num_or. destruct (Z.eqb_spec (Z.of_nat (length cs)) 0) as [|_]; [lia|].
  rewrite (ordered_chunks_full cs (chunks v) Hall) by lia.
  rewrite Nat2Z.id. change (Z.to_nat 0) with 0%nat. rewrite drop_0, firstn_all.
  destruct cs; [done|]. done.
Qed.

Lemma tryProgressivePlay_blobs (v : Viewer) :
  assembling cs md v ->
  let out := tryProgressivePlay v in
  is_Some (videoElement out.1)
  /\ Forall (leading_chunks cs) (blobs out.2)
  /\ (complete v (length cs) -> blobs out.2 = [cs])
  /\ (includes (mimeType md) "webm" = false ->
      ¬ complete v (length cs) -> blobs out.2 = []).
Proof.
  intros (Hmd & Htotal & Hel & Hdom & Hfrom). cbv zeta.
  pose proof (complete_iff v Hdom Hfrom) as Hiff.
  unfold tryProgressivePlay. rewrite Hmd. destruct Hel as [el Hel]. rewrite Hel.
  cbv zeta. rewrite Htotal, Nat2Z.id.
  set (sequentialCount := count_sequential (chunks v) 0 (length cs)).
  set (v1 := set_video v (Some el) (sequentialCount - 1)).
  assert (Hfrom1 : from_file cs v1) by done.
  assert (Hel1 : is_Some (videoElement v1)) by (by eexists).
  destruct (decide (length cs <= size (receivedChunks v))%nat) as [Hmany|Hfew].
  - assert (Hall : complete v (length cs)) by (by apply Hiff).
    pose proof (complete_held v Hdom Hfrom Hall) as Hheld.
    assert (Hseq : sequentialCount = Z.of_nat (length cs)).
    { unfold sequentialCount. apply (count_sequential_full _ (Z.of_nat (length cs))); [|lia..].
      intros j Hj. rewrite Hheld by done. apply lookup_lt_is_Some_2. lia. }
    replace (Z.of_nat (size (receivedChunks v)) >=? Z.of_nat (length cs)) with true
      by (symmetry; zbool; lia).
    replace (sequentialCount >=? Z.of_nat (length cs)) with true
      by (symmetry; zbool; lia).
    cbn [andb]. rewrite Hseq.
    destruct (assembleAndPlay_blobs v1 (Z.of_nat (length cs)) Hfrom1 Hel1) as [He Hb].
    split_and!; [done | done | | ].
    + intros _. by apply assembleAndPlay_whole.
    + intros _ Hnot. by destruct Hnot.
  - assert (Hnot : ¬ complete v (length cs)) by (rewrite Hiff; lia).
    replace (Z.of_nat (size (receivedChunks v)) >=? Z.of_nat (length cs)) with false
      by (symmetry; rewrite Z.geb_leb; apply Z.leb_gt; lia).
    cbn [andb].
    destruct (includes (mimeType md) "webm") eqn:Hwebm; cbn [andb].
    + destruct (_ && _).
      * destruct (assembleAndPlay_blobs v1 sequentialCount Hfrom1 Hel1) as [He Hb].
        split_and!; [done | done | by intros ? | by intros ?].
      * split_and!; [done | apply Forall_nil_2 | by intros ? | done].
    + split_and!; [done | apply Forall_nil_2 | by intros ? | done].
Qed.

Lemma blobs_requests (v : Viewer) (asked : list Z) :
  blobs (requestChunkFromPeers v <$> asked) = [].
Proof. by induction asked. Qed.

Lemma blobs_announceChunks (v : Viewer) : blobs (announceChunks v) = [].
Proof. unfold announceChunks. by destruct (negb _). Qed.

Lemma handleChunk_blobs (v : Viewer) (m : VideoStreamMessage) (i : Z) (c : bytes) :
  assembling cs md v ->
  msg_chunkIndex m = Some i ->
  msg_chunkData m = Some c ->
  i ∉ receivedChunks v ->
  0 <= i -> cs !! Z.to_nat i = Some c ->
  let out := handleChunk v m in
  assembling cs md out.1
  /\ Forall (leading_chunks cs) (blobs out.2)
  /\ (complete out.1 (length cs) -> blobs out.2 = [cs])
  /\ (includes (mimeType md) "webm" = false ->
      ¬ complete out.1 (length cs) -> blobs out.2 = []).
Proof.
  intros (Hmd & Htotal & Hel & Hdom & Hfrom) Hi Hd Hnew H0 Hc. cbv zeta.
  unfold handleChunk. rewrite Hi, Hd, bool_decide_eq_false_2 by done. cbv zeta.
  set (v1 := mkViewer _ _ _ _ _ _ _ _ _ _ _).
  assert (Hv1 : assembling cs md v1).
  { split_and!; [done | done | done | |].
    - cbn. by rewrite dom_insert_L, Hdom.
    - intros j d. cbn [v1 chunks]. destruct (decide (i = j)) as [<-|Hne].
      + rewrite lookup_insert_eq. by intros [= <-].
      + rewrite lookup_insert_ne by done. apply Hfrom. }
  change (metadata v1) with (metadata v). rewrite Hmd.
  destruct (tryProgressivePlay_blobs v1 Hv1) as (Hel2 & Hb & Hall & Hpart).
  pose proof (tryProgressivePlay_keeps v1) as (Hc2 & Hr2 & Hm2 & He2).
  destruct (tryProgressivePlay v1) as [v2 e]. cbn [fst snd] in *.
  assert (Hblobs : blobs (((if onProgress v1
                            then [OnProgress (Z.of_nat (size (receivedChunks v1)))
                                    (totalChunks md)]
                            else []) ++ e) ++ announceChunks v2) = blobs e).
  { rewrite !blobs_app, blobs_announceChunks, app_nil_r. by destruct (onProgress v1). }
  rewrite Hblobs.
  assert (Hsame : complete v2 (length cs) <-> complete v1 (length cs))
    by (unfold complete; by rewrite Hr2).
  destruct Hv1 as (Hmd1 & _ & _ & Hdom1 & Hfrom1).
  split_and!.
  - split_and!; [congruence | done | done | by rewrite Hc2, Hr2 |].
    unfold from_file. by rewrite Hc2.
  - done.
  - intros Hdone. apply Hall. by apply Hsame.
  - intros Hmp4 Hnot. apply Hpart; [done|]. by rewrite <- Hsame.
Qed.

(** A step that stores nothing new and loads no blob. *)
Lemma quiet_step (v v' : Viewer) (e : list Effect) :
  assembling cs md v' ->
  receivedChunks v' = receivedChunks v ->
  blobs e = [] ->
  assembling cs md (v', e).1
  /\ Forall (leading_chunks cs) (blobs (v', e).2)
  /\ (complete v (length cs) -> blobs (v', e).2 = [])
  /\ (¬ complete v (length cs) -> complete (v', e).1 (length cs) ->
      blobs (v', e).2 = [cs])
  /\ (includes (mimeType md) "webm" = false ->
      ¬ complete (v', e).1 (length cs) -> blobs (v', e).2 = []).
Proof.
  intros Hv' Hr He. cbn [fst snd]. rewrite He.
  split_and!; [done | apply Forall_nil_2 | done | | done].
  intros Hnot Hall. destruct Hnot. unfold complete in *. by rewrite <- Hr.
Qed.

Lemma step_blobs (v : Viewer) (s : Step) :
  assembling cs md v ->
  genuine cs s ->
  assembling cs md (step v s).1
  /\ Forall (leading_chunks cs) (blobs (step v s).2)
  /\ (complete v (length cs) -> blobs (step v s).2 = [])
  /\ (¬ complete v (length cs) -> complete (step v s).1 (length cs) ->
      blobs (step v s).2 = [cs])
  /\ (includes (mimeType md) "webm" = false ->
      ¬ complete (step v s).1 (length cs) -> blobs (step v s).2 = []).
Proof.
  intros Hv Hs. pose proof Hv as (Hmd & Htotal & Hel & Hdom & Hfrom).
  destruct s as [m|]; cbn [step].
  - unfold handleVideoMessage.
    destruct (String.eqb _ _); [by apply quiet_step|].
    destruct (msg_type m) eqn:Hty.
    + unfold handleMetadata. rewrite Hmd. by apply quiet_step.
    + destruct (msg_chunkIndex m) as [i|] eqn:Hi;
        [|unfold handleChunk; rewrite Hi; by apply quiet_step].
      destruct (msg_chunkData m) as [c|] eqn:Hd;
        [|unfold handleChunk; rewrite Hi, Hd; by apply quiet_step].
      destruct (decide (i ∈ receivedChunks v)) as [Hin|Hnew].
      { unfold handleChunk. rewrite Hi, Hd, bool_decide_eq_true_2 by done.
        by apply quiet_step. }
      destruct (Hs Hty i c Hi Hd) as [H0 Hc].
      destruct (handleChunk_blobs v m i c Hv Hi Hd Hnew H0 Hc) as (Hv' & Hb & Hall & Hpart).
      split_and!; [done | done | | by intros _ | done].
      intros Hdone. destruct Hnew. apply Hdone. apply lookup_lt_Some in Hc. lia.
    + apply quiet_step; [done | done |].
      unfold handleChunkRequest. destruct (msg_chunkIndex m); [|done].
      by destruct (chunks v !! _).
    + apply quiet_step; [|by unfold handlePeerChunks; destruct (msg_availableChunks m) | done].
      unfold handlePeerChunks. by destruct (msg_availableChunks m).
    + by apply quiet_step.
  - unfold requestBatch. rewrite Hmd.
    destruct (request_loop _ _ _ _ _) as [asked pending].
    destruct (_ >=? _).
    + apply quiet_step; [done | done | apply blobs_requests].
    + apply quiet_step; [done | done |]. by rewrite blobs_app, blobs_requests.
Qed.

Lemma run_blobs (steps : list Step) :
  forall v : Viewer,
    assembling cs md v ->
    Forall (genuine cs) steps ->
    assembling cs md (run v steps).1
    /\ Forall (leading_chunks cs) (blobs (run v steps).2)
    /\ (complete v (length cs) -> blobs (run v steps).2 = [])
    /\ (¬ complete v (length cs) -> complete (run v steps).1 (length cs) ->
        list.last (blobs (run v steps).2) = Some cs)
    /\ (includes (mimeType md) "webm" = false ->
        ¬ complete v (length cs) -> complete (run v steps).1 (length cs) ->
        blobs (run v steps).2 = [cs])
    /\ (includes (mimeType md) "webm" = false ->
        ¬ complete (run v steps).1 (length cs) -> blobs (run v steps).2 = []).
Proof.
  induction steps as [|s steps IH]; intros v Hv Hsteps.
  - cbn. split_and!; [done | apply Forall_nil_2 | done | by intros ? | by intros ? ? | done].
  - apply list.Forall_cons in Hsteps as [Hs Hsteps]. cbn [run].
    destruct (step_blobs v s Hv Hs) as (Hv1 & Hb1 & Hdone1 & Hlast1 & Hpart1).
    pose proof (step_received v s) as [Hr1 _].
    destruct (step v s) as [v1 e1]. cbn [fst snd] in *.
    destruct (IH v1 Hv1 Hsteps) as (Hv2 & Hb2 & Hdone2 & Hlast2 & Hone2 & Hpart2).
    pose proof (run_received steps v1) as [Hr2 _].
    destruct (run v1 steps) as [v2 e2]. cbn [fst snd] in *.
    rewrite blobs_app.
    assert (Hmono1 : complete v (length cs) -> complete v1 (length cs)).
    { intros Hall i Hi. rewrite Hr1. apply elem_of_union_l. by apply Hall. }
    assert (Hmono2 : complete v1 (length cs) -> complete v2 (length cs)).
    { intros Hall i Hi. rewrite Hr2. apply elem_of_union_l. by apply Hall. }
    assert (Hdec : complete v1 (length cs) \/ ¬ complete v1 (length cs)).
    { destruct Hv1 as (_ & _ & _ & Hdom1 & Hfrom1).
      rewrite (complete_iff v1 Hdom1 Hfrom1).
      destruct (decide (length cs <= size (receivedChunks v1))%nat); [by left | by right]. }
    split_and!.
    + done.
    + by apply Forall_app_2.
    + intros Hall. by rewrite (Hdone1 Hall), (Hdone2 (Hmono1 Hall)).
    + intros Hnot Hall. destruct Hdec as [Hall1|Hnot1].
      * by rewrite (Hlast1 Hnot Hall1), (Hdone2 Hall1).
      * by rewrite last_app, (Hlast2 Hnot1 Hall).
    + intros Hmp4 Hnot Hall. destruct Hdec as [Hall1|Hnot1].
      * by rewrite (Hlast1 Hnot Hall1), (Hdone2 Hall1).
      * by rewrite (Hpart1 Hmp4 Hnot1), (Hone2 Hmp4 Hnot1 Hall).
    + intros Hmp4 Hnot.
      assert (Hnot1 : ¬ complete v1 (length cs)) by (intros ?; by apply Hnot, Hmono2).
      by rewrite (Hpart1 Hmp4 Hnot1), (Hpart2 Hmp4 Hnot).
Qed.

End Assembly.

(** X14: a viewer that has the metadata of a file of [length cs] chunks
    and a video element, and nothing stored yet, is given any sequence of
    messages and timer firings in which every chunk message carries the
    chunk of [cs] with its index (in any order, repeated or not, mixed
    with anything else).  Then the received set is exactly the set of
    indices that arrived from other endpoints; every blob handed to the
    video element is made of the first chunks of [cs], in order; once
    every index has arrived the last blob is [cs] itself; and for a type
    without ["webm"] exactly one blob is loaded, the whole [cs], and none
    before the last chunk has arrived. *)
Theorem viewer_assembles_file (cs : list bytes) (md : VideoMetadata)
    (v : Viewer) (steps : list Step) :
  cs <> [] ->
  metadata v = Some md ->
  totalChunks md = Z.of_nat (length cs) ->
  is_Some (videoElement v) ->
  chunks v = ∅ ->
  receivedChunks v = ∅ ->
  Forall (genuine cs) steps ->
  let out := run v steps in
  receivedChunks out.1 = arrivals (myEndpointId v) steps
  /\ Forall (leading_chunks cs) (blobs out.2)
  /\ (complete out.1 (length cs) -> list.last (blobs out.2) = Some cs)
  /\ (includes (mimeType md) "webm" = false ->
      complete out.1 (length cs) -> blobs out.2 = [cs])
  /\ (includes (mimeType md) "webm" = false ->
      ¬ complete out.1 (length cs) -> blobs out.2 = []).
Proof.
  intros Hcs Hmd Htotal Hel Hchunks Hreceived Hsteps. cbv zeta.
  assert (Hv : assembling cs md v).
  { split_and!; [done | done | done | by rewrite Hchunks, Hreceived, dom_empty_L |].
    intros i c. by rewrite Hchunks, lookup_empty. }
  assert (Hnot : ¬ complete v (length cs)).
  { intros Hall. specialize (Hall 0). rewrite Hreceived in Hall.
    apply (not_elem_of_empty (C := gset Z) 0), Hall. destruct cs; [done|]. cbn. lia. }
  destruct (run_blobs cs md Hcs steps v Hv Hsteps) as (_ & Hb & _ & Hlast & Hone & Hpart).
  destruct (run_received steps v) as [Hr _].
  split_and!; [|done | by apply Hlast | intros ? ?; by apply Hone | done].
  rewrite Hr, Hreceived. set_solver.
Qed.

Lemma viewer_assembles_file_witness :
  let cs := [["001"%byte]; ["002"%byte]] in
  let md := mkMeta "a.mp4" 2 "video/mp4" 2 None in
  let v := (handleVideoMessage (setVideoElement (constructor "viewer") (mkVideo None))
              (metadataMessage "broadcaster" md)).1 in
  let steps := [Message (chunkMessage "broadcaster" 1 ["002"%byte]); Timer;
                Message (chunkMessage "broadcaster" 0 ["001"%byte])] in
  let out := run v steps in
  receivedChunks out.1 = arrivals (myEndpointId v) steps
  /\ Forall (leading_chunks cs) (blobs out.2)
  /\ (complete out.1 (length cs) -> list.last (blobs out.2) = Some cs)
  /\ (includes (mimeType md) "webm" = false ->
      complete out.1 (length cs) -> blobs out.2 = [cs])
  /\ (includes (mimeType md) "webm" = false ->
      ¬ complete out.1 (length cs) -> blobs out.2 = []).
Proof.
  intros cs md v steps.
  apply (viewer_assembles_file cs md v steps).
  - discriminate.
  - reflexivity.
  - reflexivity.
  - by eexists.
  - reflexivity.
  - reflexivity.
  - unfold steps. repeat apply Forall_cons_2; [..| apply Forall_nil_2]; cbn.
    + intros _ i c [= <-] [= <-]. by split.
    + done.
    + intros _ i c [= <-] [= <-]. by split.
Defined.

(** *** Asking a peer and being answered *)

Lemma requestBatch_sends (v : Viewer) (md : VideoMetadata) :
  metadata v = Some md ->
  exists rest,
    (requestBatch v).2
    = (requestChunkFromPeers v <$> take 5 (wanted v (totalChunks md))) ++ rest
    /\ requests rest = [].
Proof.
  intros Hmd. unfold requestBatch. rewrite Hmd.
  destruct (request_loop_spec (receivedChunks v) (pendingRequests v)
              (Z.to_nat (totalChunks md)) 0 0 (pendingRequests v)) as [Hl _]; [done|].
  rewrite seqZ_to_nat in Hl. fold (wanted v (totalChunks md)) in Hl.
  change (5 - 0)%nat with 5%nat in Hl.
  destruct (request_loop _ _ _ _ _) as [asked pending]. cbn [fst] in Hl. subst asked.
  destruct (_ >=? _); cbn [snd].
  - exists []. by rewrite app_nil_r.
  - by exists [SetTimeout 500].
Qed.

(** X16: a chunk asked for is handed over unchanged by a peer that holds
    it.  When [requestBatch] of viewer [b] asks for index [i], it
    broadcasts a request signed by [b]; a viewer [a] with another
    identity that holds bytes [c] under [i] answers that request, without
    changing itself, with one chunk message carrying [c], sent under
    frame number [i + 100000]; and when [b] handles that message it
    stores [c] under [i], no longer waits for [i], and its next
    [requestBatch] does not ask for [i] again. *)
Theorem request_relay_roundtrip (a b : Viewer) (md : VideoMetadata) (i : Z) (c : bytes) :
  metadata b = Some md ->
  myEndpointId a <> myEndpointId b ->
  chunks a !! i = Some c ->
  i ∈ requests (requestBatch b).2 ->
  let request :=
    mkMsg VideoRequestChunk (myEndpointId b) None None None None None (Some i) None None in
  let relay := chunkMessage (myEndpointId a) i c in
  let b' := (handleVideoMessage (requestBatch b).1 relay).1 in
  BroadcastSignal request ∈ (requestBatch b).2
  /\ handleVideoMessage a request = (a, [BroadcastChunk relay (i + 100000)])
  /\ chunks b' !! i = Some c
  /\ i ∈ receivedChunks b'
  /\ (i ∉ pendingRequests b')
  /\ i ∉ requests (requestBatch b').2.
Proof.
  intros Hmd Hne Hheld Hasked. cbv zeta.
  destruct (requestBatch_spec b md Hmd) as (Hreq & (Hc & Hr & Hm & He) & _).
  destruct (requestBatch_sends b md Hmd) as (rest & Hsends & _).
  cbv zeta in *. rewrite Hreq in Hasked.
  assert (Hnew : i ∉ receivedChunks (requestBatch b).1).
  { rewrite Hr. apply elem_of_take in Hasked as (k & Hk & _).
    apply list_elem_of_lookup_2 in Hk. unfold wanted in Hk.
    by apply list_elem_of_filter in Hk as [[Hnot _] _]. }
  assert (Hother : String.eqb (myEndpointId a) (myEndpointId b) = false)
    by (by apply String.eqb_neq).
  destruct (handleChunk_new (requestBatch b).1 (chunkMessage (myEndpointId a) i c) i c
              eq_refl eq_refl Hnew) as (Hc' & Hr' & Hp' & Hm' & He').
  assert (Hhandle : handleVideoMessage (requestBatch b).1 (chunkMessage (myEndpointId a) i c)
                    = handleChunk (requestBatch b).1 (chunkMessage (myEndpointId a) i c)).
  { unfold handleVideoMessage. cbn [chunkMessage msg_from msg_type]. by rewrite He, Hother. }
  rewrite Hhandle.
  split_and!.
  - rewrite Hsends. apply elem_of_app. left.
    apply list_elem_of_fmap. by exists i.
  - unfold handleVideoMessage. cbn [msg_from msg_type].
    rewrite String.eqb_sym, Hother. unfold handleChunkRequest. cbn [msg_chunkIndex].
    by rewrite Hheld.
  - by rewrite Hc', lookup_insert_eq.
  - rewrite Hr'. set_solver.
  - rewrite Hp'. set_solver.
  - rewrite <- Hm, <- Hm' in Hmd.
    destruct (requestBatch_spec _ md Hmd) as (Hreq' & _). cbv zeta in Hreq'.
    rewrite Hreq'. intros Hagain.
    apply elem_of_take in Hagain as (k & Hk & _).
    apply list_elem_of_lookup_2 in Hk. unfold wanted in Hk.
    apply list_elem_of_filter in Hk as [[Hnot _] _].
    apply Hnot. rewrite Hr'. set_solver.
Qed.

Lemma request_relay_roundtrip_witness :
  let md := mkMeta "a.mp4" 150000 "video/mp4" 3 None in
  let b := handleAll (constructor "viewer") [metadataMessage "broadcaster" md] in
  let a := handleAll (constructor "peer")
             [metadataMessage "broadcaster" md; chunkMessage "broadcaster" 1 ["007"%byte]] in
  let request :=
    mkMsg VideoRequestChunk "viewer" None None None None None (Some 1) None None in
  let relay := chunkMessage "peer" 1 ["007"%byte] in
  let b' := (handleVideoMessage (requestBatch b).1 relay).1 in
  BroadcastSignal request ∈ (requestBatch b).2
  /\ handleVideoMessage a request = (a, [BroadcastChunk relay (1 + 100000)])
  /\ chunks b' !! 1 = Some ["007"%byte]
  /\ 1 ∈ receivedChunks b'
  /\ (1 ∉ pendingRequests b')
  /\ 1 ∉ requests (requestBatch b').2.
Proof.
  intros md b a.
  apply (request_relay_roundtrip a b md 1 ["007"%byte]).
  - reflexivity.
  - discriminate.
  - reflexivity.
  - vm_compute. apply list_elem_of_further, list_elem_of_here.
Defined.

End VideoFileViewerFacts.

(** ** A file from broadcaster to viewer *)

Module VideoTransferFacts.

Import VideoStreaming VideoFileViewer.

Lemma str_or_twice (v : option string) (d : string) :
  d <> EmptyString -> str_or (Some (str_or v d)) d = str_or v d.
Proof.
  intros Hd. unfold str_or at 1.
  destruct (String.eqb_spec (str_or v d) "") as [Hempty|]; [|done].
  unfold str_or in Hempty. destruct v as [s|]; [|done].
  destruct (String.eqb_spec s ""); congruence.
Qed.

(** The chunk messages of a pass all arrive at a viewer with another
    identity. *)
Lemma arrivals_of_pass (bid vid : string) (cs : list bytes) (i : Z) :
  bid <> vid ->
  0 <= i < Z.of_nat (length cs) ->
  i ∈ arrivals vid (Message <$> imap (fun j c => chunkMessage bid (Z.of_nat j) c) cs).
Proof.
  intros Hne Hi. unfold arrivals. apply elem_of_list_to_set, list_elem_of_omap.
  destruct (lookup_lt_is_Some_2 cs (Z.to_nat i)) as [c Hc]; [lia|].
  exists (Message (chunkMessage bid i c)). split.
  - apply list_elem_of_fmap. exists (chunkMessage bid i c). split; [done|].
    apply list_elem_of_lookup. exists (Z.to_nat i).
    rewrite list_lookup_imap, Hc. cbn. by rewrite Z2Nat.id by lia.
  - cbn. by rewrite (proj2 (String.eqb_neq bid vid) Hne).
Qed.

Lemma genuine_pass (bid : string) (cs : list bytes) :
  Forall (genuine cs) (Message <$> imap (fun j c => chunkMessage bid (Z.of_nat j) c) cs).
Proof.
  apply Forall_fmap, list.Forall_forall. intros m Hm.
  apply list_elem_of_lookup in Hm as [j Hj].
  rewrite list_lookup_imap in Hj.
  destruct (cs !! j) as [c|] eqn:Hc; [|done]. injection Hj as <-.
  cbn. intros _ i d [= <-] [= <-]. split; [lia|]. by rewrite Nat2Z.id.
Qed.

(** X15: a broadcaster made for a non-empty file starts a pass and its
    timer fires until every chunk is out; a viewer with another identity
    and a video element handles the messages of the pass in the order
    they were sent.  Then the last blob the viewer hands to its video
    element holds exactly the bytes of the file; every blob before it
    holds a leading part of the file; and unless the type contains
    ["webm"] that blob is the only one. *)
Theorem broadcast_pass_plays_file (video : File) (bid vid : string)
    (el : VideoElement) (ms : Z) (n : nat) :
  file_data video <> [] ->
  bid <> vid ->
  ceil_div (file_size video) VIDEO_CHUNK_SIZE <= Z.of_nat (S n) ->
  let started :=
    VideoFileBroadcaster.startBroadcast ms (VideoFileBroadcaster.constructor video bid) in
  let later := VideoFileBroadcaster.ticks n ms started.1 in
  let viewer := setVideoElement (constructor vid) el in
  let out := run viewer (Message <$> delivered (started.2 ++ later.2)) in
  @concat byte <$> list.last (blobs out.2) = Some (file_data video)
  /\ Forall (fun blob => concat blob `prefix_of` file_data video) (blobs out.2)
  /\ (includes (str_or (Some (file_type video)) "video/mp4") "webm" = false ->
      length (blobs out.2) = 1%nat).
Proof.
  intros Hdata Hne Hfirings. cbv zeta.
  rewrite VideoFileBroadcasterFacts.pass_delivered.
  set (b := VideoFileBroadcaster.prepare (VideoFileBroadcaster.constructor video bid)).
  set (cs := VideoFileBroadcaster.chunks b).
  destruct (VideoFileBroadcasterFacts.split_chunks_spec
              (file_data video) (length (file_data video)) 0)
    as (Hconcat & Hcount & _); [lia | lia |].
  change (VideoFileBroadcaster.split_chunks _ _ _) with cs in Hconcat, Hcount.
  rewrite drop_0 in Hconcat.
  assert (Hlen : Z.of_nat (length cs) = ceil_div (file_size video) VIDEO_CHUNK_SIZE).
  { rewrite Hcount. unfold file_size.
    destruct (Z.ltb_spec 0 (Z.of_nat (length (file_data video)))) as [Hpos|Hzero].
    - by rewrite Z.sub_0_r.
    - destruct (file_data video); [done | cbn in Hzero; lia]. }
  assert (Hcs : cs <> []).
  { intros Hnil. rewrite Hnil in Hconcat. by apply Hdata. }
  rewrite take_ge by lia. rewrite fmap_cons. cbn [run].
  set (md := mkMeta (str_or (Some (file_name video)) "video") (file_size video)
               (str_or (Some (file_type video)) "video/mp4")
               (Z.of_nat (length cs)) None).
  set (v1 := mkViewer vid (Some md) ∅ ∅ ∅ (Some el) (-1) false false false ∅).
  assert (Hstep : step (setVideoElement (constructor vid) el)
                    (Message (metadataMessage bid (VideoFileBroadcaster.metadata b)))
                  = (v1, [SetTimeout 100])).
  { cbn [step]. unfold handleVideoMessage.
    cbn [metadataMessage msg_from msg_type setVideoElement set_video constructor myEndpointId].
    rewrite (proj2 (String.eqb_neq bid vid) Hne).
    unfold handleMetadata. cbn. unfold v1, md. do 3 f_equal. f_equal.
    - destruct (Z.eqb_spec (file_size video) 0); congruence.
    - by apply (str_or_twice (Some (file_type video)) "video/mp4").
    - change (VideoFileBroadcaster.split_chunks _ _ _) with cs.
      destruct (Z.eqb_spec (Z.of_nat (length cs)) 0) as [Hzero|]; [|done].
      destruct Hcs. apply nil_length_inv. lia. }
  rewrite Hstep.
  set (steps := Message <$> imap (fun j c => chunkMessage bid (Z.of_nat j) c) cs).
  assert (Hv1 : assembling cs md v1).
  { split_and!; [done | done | by eexists | by cbn; rewrite dom_empty_L |].
    intros i c. cbn. by rewrite lookup_empty. }
  destruct (VideoFileViewerFacts.run_blobs cs md Hcs steps v1 Hv1 (genuine_pass bid cs))
    as (_ & Hb & _ & Hlast & Hone & _).
  destruct (VideoFileViewerFacts.run_received steps v1) as [Hr _].
  destruct (run v1 steps) as [v2 e2]. cbn [fst snd] in *.
  change (blobs ([SetTimeout 100] ++ e2)) with (blobs e2).
  assert (Hnot : ¬ complete v1 (length cs)).
  { intros Hall. apply (not_elem_of_empty (C := gset Z) 0), (Hall 0).
    destruct (length cs) eqn:Hzero; [by apply nil_length_inv in Hzero | lia]. }
  assert (Hall : complete v2 (length cs)).
  { intros i Hi. rewrite Hr. apply elem_of_union_r. by apply arrivals_of_pass. }
  split_and!.
  - rewrite (Hlast Hnot Hall). change (Some (concat cs) = Some (file_data video)).
    by rewrite Hconcat.
  - eapply list.Forall_impl; [exact Hb|]. intros blob [_ [rest Hrest]].
    rewrite <- Hconcat, Hrest, concat_app. by eexists.
  - intros Hmp4. by rewrite (Hone Hmp4 Hnot Hall).
Qed.

Lemma broadcast_pass_plays_file_witness :
  let started :=
    VideoFileBroadcaster.startBroadcast 50
      (VideoFileBroadcaster.constructor VideoFileBroadcaster.sample_file "broadcaster") in
  let later := VideoFileBroadcaster.ticks 0 50 started.1 in
  let viewer := setVideoElement (constructor "viewer") (mkVideo None) in
  let out := run viewer (Message <$> delivered (started.2 ++ later.2)) in
  @concat byte <$> list.last (blobs out.2) = Some ["001"; "002"; "003"]%byte
  /\ Forall (fun blob => concat blob `prefix_of` ["001"; "002"; "003"]%byte) (blobs out.2)
  /\ (includes (str_or (Some "video/webm") "video/mp4") "webm" = false ->
      length (blobs out.2) = 1%nat).
Proof.
  apply (broadcast_pass_plays_file VideoFileBroadcaster.sample_file
           "broadcaster" "viewer" (mkVideo None) 50 0).
  - discriminate.
  - discriminate.
  - vm_compute. discriminate.
Defined.

End VideoTransferFacts.

(** ** Messages from ourselves *)

Module SelfMessageFacts.

Import LiveStreaming VideoStreaming.

(** C8: a signal or file-exchange message whose [from] is the local
    endpoint identity is not acted upon by the signalling handler, by
    the broadcaster's message handler or by the viewer's message
    handler: the object is unchanged, nothing is sent, no callback runs
    and no further handler is entered. *)
Theorem self_messages_ignored
    (createOffer createAnswer : PeerConnection -> option string)
    (st : Page) (signal : WebRTCSignal)
    (b : VideoFileBroadcaster.Broadcaster) (bm : VideoStreamMessage)
    (v : VideoFileViewer.Viewer) (vm : VideoStreamMessage) :
  sig_from signal = myEndpointId st ->
  msg_from bm = VideoFileBroadcaster.myEndpointId b ->
  msg_from vm = VideoFileViewer.myEndpointId v ->
  handleWebRTCSignal createOffer createAnswer st signal = st
  /\ VideoFileBroadcaster.handleVideoMessage b bm = (b, [])
  /\ VideoFileViewer.handleVideoMessage v vm = (v, []).
Proof.
  intros Hs Hb Hv. split_and!.
  - unfold handleWebRTCSignal. by rewrite Hs, String.eqb_refl.
  - unfold VideoFileBroadcaster.handleVideoMessage. by rewrite Hb, String.eqb_refl.
  - unfold VideoFileViewer.handleVideoMessage. by rewrite Hv, String.eqb_refl.
Qed.

Lemma self_messages_ignored_witness :
  handleWebRTCSignal sample_offer sample_answer viewer_page
    (mkSignal WebrtcOffer "viewer" None (Some "v=0") None) = viewer_page
  /\ VideoFileBroadcaster.handleVideoMessage VideoFileBroadcaster.sample_broadcaster
       (mkMsg VideoRequestChunk "broadcaster" None None None None None (Some 0) None None)
     = (VideoFileBroadcaster.sample_broadcaster, [])
  /\ VideoFileViewer.handleVideoMessage (VideoFileViewer.constructor "viewer")
       (chunkMessage "viewer" 0 ["001"%byte])
     = (VideoFileViewer.constructor "viewer", []).
Proof.
  apply (self_messages_ignored sample_offer sample_answer); reflexivity.
Defined.

End SelfMessageFacts.
